(** * Two-stage RAG pipeline: retrieval, reranking, synthesis, orchestration

    A shallow embedding of the TypeScript services
    [VectorSearchService], [CohereReranker], [ResponseGenerator],
    [RAGPipeline] and of the batch route of [query.routes.ts].

    Modelling conventions.
    - A JavaScript [number] that holds a score or a distance is a rational
      [Q]: the finite values, with exact arithmetic.  The one operation of
      the code that leaves the finite numbers, a division whose divisor can
      be zero, returns a [number] with the IEEE special values written out.
    - A [number] that holds a count, an index or a millisecond reading is
      a [Z]; array indexing and [slice] spell out what JavaScript does for
      negative arguments.  Where the code multiplies a length by a decimal
      fraction the product is the IEEE binary64 one.
    - A string is the sequence of the bytes of its UTF-8 form.  [JS.length]
      counts its UTF-16 code units, as [.length] does; positions inside a
      string are byte positions, which are the code's positions for ASCII
      text, and the statements that depend on them say so.
    - Asynchronous methods are computations in a state-and-exception monad
      [M]: the state is the clock position, the lazily created vector store
      handle and the list of collaborator calls made so far; a rejected
      promise is [Throw].  Each service method records its own invocation
      and each external call records itself, as a mocked collaborator
      would count calls.  Of the log lines only one is recorded: the
      error that [rerank] catches and reports instead of rethrowing it.
    - The external collaborators (vector index, rerank API, chat model) and
      the values of [config/env] are section variables. *)

From Stdlib Require Import ZArith QArith List String Ascii Bool Lia Lqa.
From Stdlib Require Import Sorting.Sorted Sorting.Permutation DecimalString.
From Stdlib Require Import Qround SpecFloat.
Import ListNotations.

Local Open Scope list_scope.
Local Open Scope string_scope.
Local Open Scope Z_scope.

(** ** JavaScript primitives used by the services *)

Module JS.

(** [x || d] on an optional number: [undefined] and [0] are falsy. *)
Definition or_default (x : option Z) (d : Z) : Z :=
  match x with
  | Some v => if v =? 0 then d else v
  | None => d
  end.

(** [x || d] on an optional string: [undefined] and [''] are falsy. *)
Definition or_string (x : option string) (d : string) : string :=
  match x with
  | Some v => if String.eqb v "" then d else v
  | None => d
  end.

(** [a || b] on two finite numbers. *)
Definition or_num (a b : Q) : Q :=
  if Qeq_bool a 0 then b else a.

(** [arr[i]]: [undefined] outside the array. *)
Definition index {A} (arr : list A) (i : Z) : option A :=
  if i <? 0 then None else nth_error arr (Z.to_nat i).

(** [arr.slice(0, e)]: a negative [e] counts from the end. *)
Definition slice0 {A} (arr : list A) (e : Z) : list A :=
  let len := Z.of_nat (List.length arr) in
  let final := if e <? 0 then Z.max (len + e) 0 else Z.min e len in
  firstn (Z.to_nat final) arr.

(** [arr.map((x, i) => f x i)]. *)
Fixpoint mapi_from {A B} (i : nat) (f : A -> nat -> B) (arr : list A) : list B :=
  match arr with
  | [] => []
  | x :: t => f x i :: mapi_from (S i) f t
  end.

Definition mapi {A B} (f : A -> nat -> B) (arr : list A) : list B :=
  mapi_from 0 f arr.

(** [arr.join(sep)]. *)
Fixpoint join (sep : string) (arr : list string) : string :=
  match arr with
  | [] => ""
  | [x] => x
  | x :: t => x ++ sep ++ join sep t
  end.

(** Template-literal rendering of integers. *)
Definition string_of_Z (z : Z) : string :=
  NilZero.string_of_int (Z.to_int z).

Definition string_of_nat (n : nat) : string :=
  NilZero.string_of_uint (Nat.to_uint n).

(** [s.substring(0, n)]. *)
Definition substring0 (n : nat) (s : string) : string :=
  String.substring 0 n s.

(** [s.lastIndexOf(c)], [-1] when [c] does not occur. *)
Fixpoint lastIndexOf_from (pos : Z) (c : ascii) (s : string) (found : Z) : Z :=
  match s with
  | EmptyString => found
  | String d t =>
      lastIndexOf_from (pos + 1) c t (if Ascii.eqb c d then pos else found)
  end.

Definition lastIndexOf (c : ascii) (s : string) : Z :=
  lastIndexOf_from 0 c s (-1).

(** [s.length]: the number of UTF-16 code units of the text whose UTF-8
    form is [s]. A byte that opens a character of one, two or three bytes
    stands for one unit, a byte that opens a character of four bytes for
    the two units of a surrogate pair, a continuation byte for none. *)
Definition units (c : ascii) : nat :=
  let b := nat_of_ascii c in
  if (b <? 128)%nat then 1%nat
  else if (b <? 192)%nat then 0%nat
  else if (b <? 240)%nat then 1%nat
  else 2%nat.

Fixpoint length (s : string) : nat :=
  match s with
  | EmptyString => 0%nat
  | String c t => (units c + length t)%nat
  end.

(** Text of ASCII characters only: every character is one byte and one
    UTF-16 code unit, so positions and lengths in bytes are the ones
    [length], [substring] and [lastIndexOf] have in the code. *)
Fixpoint isAscii (s : string) : bool :=
  match s with
  | EmptyString => true
  | String c t => (nat_of_ascii c <? 128)%nat && isAscii t
  end.

(** A [number] as the IEEE 754 binary64 value it is: conversion of an
    integer, the literal [0.7] (the double nearest to seven tenths),
    the product rounded to nearest even, and [x > y]. *)
Definition double : Type := spec_float.

Definition double_of_Z (z : Z) : double := binary_normalize 53 1024 z 0 false.

Definition d0_7 : double := S754_finite false 6305039478318694 (-53).

Definition mul (x y : double) : double := SFmul 53 1024 x y.

Definition gt (x y : double) : bool := SFltb y x.

(** [Math.min], [Math.max] on finite numbers. *)
Definition Math_min (a b : Q) : Q := if Qle_bool a b then a else b.
Definition Math_max (a b : Q) : Q := if Qle_bool b a then a else b.

(** [arr.sort(cmp)]: the sort is stable, so with a consistent comparator
    its result is the one of a stable insertion sort. *)
Fixpoint insert {A} (cmp : A -> A -> Q) (x : A) (l : list A) : list A :=
  match l with
  | [] => [x]
  | y :: t => if Qle_bool (cmp x y) 0 then x :: y :: t else y :: insert cmp x t
  end.

Definition sort {A} (cmp : A -> A -> Q) (arr : list A) : list A :=
  fold_right (insert cmp) [] arr.

(** A [number] with the IEEE special values. *)
Inductive number : Type :=
| Num (q : Q)
| NaN
| PosInfinity
| NegInfinity.

(** [a / b] on finite numbers. *)
Definition div (a b : Q) : number :=
  if Qeq_bool b 0 then
    if Qeq_bool a 0 then NaN
    else if Qle_bool 0 a then PosInfinity else NegInfinity
  else Num (a / b).

(** [x - y]. *)
Definition sub (x y : number) : number :=
  match x, y with
  | NaN, _ | _, NaN => NaN
  | Num a, Num b => Num (a - b)
  | Num _, PosInfinity => NegInfinity
  | Num _, NegInfinity => PosInfinity
  | PosInfinity, PosInfinity => NaN
  | NegInfinity, NegInfinity => NaN
  | PosInfinity, _ => PosInfinity
  | NegInfinity, _ => NegInfinity
  end.

(** [a !== b] on optional strings ([undefined] is [None]). *)
Definition strict_neq (a b : option string) : bool :=
  match a, b with
  | None, None => false
  | Some x, Some y => negb (String.eqb x y)
  | _, _ => true
  end.

End JS.

(** ** Data model ([paper.types.ts], [api.types.ts]) *)

Record Paper := {
  title : string;
  authors : string;
  year : Z;
  pages : Z;
  link : string;
  code : string
}.

Record ChunkMetadata := {
  paperId : string;
  md_title : string;
  md_authors : string;
  md_year : Z;
  md_pages : Z;
  md_link : string;
  md_code : string;
  chunkIndex : Z;
  totalChunks : Z
}.

Record Document := {
  pageContent : string;
  metadata : ChunkMetadata
}.

Record SearchResult := {
  paper : Paper;
  score : Q;
  chunkContent : string
}.

(** [RerankResult extends SearchResult]. *)
Record RerankResult := {
  base : SearchResult;
  rerankScore : Q;
  originalScore : Q
}.

Record SourceReference := {
  sr_title : string;
  sr_authors : string;
  sr_year : Z;
  sr_link : string;
  sr_pages : Z;
  relevanceScore : Q;
  excerpt : string
}.

Record QueryMetadata := {
  retrievalTimeMs : Z;
  rerankTimeMs : option Z;
  generationTimeMs : Z;
  totalTimeMs : Z;
  candidateCount : Z;
  finalCount : Z;
  modelUsed : string
}.

Record QueryResponse := {
  answer : string;
  sources : list SourceReference;
  qr_metadata : QueryMetadata
}.

(** ** Errors, state and the monad of asynchronous methods *)

Inductive JsError : Type :=
| Error (message : string)
| APIError (statusCode : Z) (message : string).

Definition error_message (e : JsError) : string :=
  match e with
  | Error m => m
  | APIError _ m => m
  end.

Inductive Outcome (A : Type) : Type :=
| Ok (a : A)
| Throw (e : JsError).

Arguments Ok {A} a.
Arguments Throw {A} e.

(** The vector store handle; its search method is an external call. *)
Definition Filter := list (string * string).

Record Chroma := {
  similaritySearchWithScore :
    string -> Z -> option Filter -> Outcome (list (Document * Q))
}.

(** One entry per collaborator call: the calls that enter a service of the
    pipeline and the calls that leave the process; and [Rerank_failed],
    the [logger.error('[Stage 2] Reranking failed:', error)] of the catch
    block of [rerank], where the caught error is not passed on. *)
Inductive Event : Type :=
| Invoke_search
| Invoke_rerank
| Invoke_generate
| Net_getVectorStore
| Net_similaritySearch
| Net_cohere_rerank
| Net_chat_invoke
| Rerank_failed (error : JsError).

Record World := {
  ticks : nat;
  vectorStore : option Chroma;
  trace : list Event
}.

Definition M (A : Type) : Type := World -> Outcome A * World.

Definition ret {A} (a : A) : M A := fun w => (Ok a, w).

Definition throw {A} (e : JsError) : M A := fun w => (Throw e, w).

Definition bind {A B} (m : M A) (k : A -> M B) : M B :=
  fun w =>
    match m w with
    | (Ok a, w') => k a w'
    | (Throw e, w') => (Throw e, w')
    end.

Definition try_catch {A} (m : M A) (h : JsError -> M A) : M A :=
  fun w =>
    match m w with
    | (Ok a, w') => (Ok a, w')
    | (Throw e, w') => h e w'
    end.

Declare Scope js_scope.
Delimit Scope js_scope with js.
Notation "x <- m ;; k" := (bind m (fun x => k))
  (at level 61, m at next level, right associativity) : js_scope.
Notation "m ;; k" := (bind m (fun _ => k))
  (at level 61, right associativity) : js_scope.
Local Open Scope js_scope.

Definition emit (ev : Event) : M unit :=
  fun w => (Ok tt, {| ticks := ticks w; vectorStore := vectorStore w;
                      trace := trace w ++ [ev] |}).

(** Lifting the answer of an external call. *)
Definition await {A} (ev : Event) (r : Outcome A) : M A :=
  fun w => (r, {| ticks := ticks w; vectorStore := vectorStore w;
                  trace := trace w ++ [ev] |}).

(** [arr.map(f)] with a callback that can throw. *)
Fixpoint mapM {A B} (f : A -> M B) (arr : list A) : M (list B) :=
  match arr with
  | [] => ret []
  | x :: t => y <- f x ;; ys <- mapM f t ;; ret (y :: ys)
  end.

(** [Promise.all]: every computation is started; here they run to
    completion one after the other, in array order, and the result is
    rejected with the first error in that order. The code interleaves the
    members at their awaits, so clock readings, time fields and the order
    in which calls of different members are recorded are those of this
    schedule only. *)
Definition all2 {A B} (m1 : M A) (m2 : M B) : M (A * B) :=
  fun w =>
    let (r1, w1) := m1 w in
    let (r2, w2) := m2 w1 in
    (match r1, r2 with
     | Ok a, Ok b => Ok (a, b)
     | Throw e, _ => Throw e
     | Ok _, Throw e => Throw e
     end, w2).

Fixpoint all_map {A B} (f : A -> M B) (arr : list A) : M (list B) :=
  match arr with
  | [] => ret []
  | x :: t => yt <- all2 (f x) (all_map f t) ;; ret (fst yt :: snd yt)
  end.

(** ** The environment of the services *)

(** [config/env]. *)
Record Env := {
  VECTOR_SEARCH_K : Z;
  RERANK_TOP_K : Z;
  CHAT_MODEL : string;
  isCohereEnabled : bool
}.

(** One scored entry of the rerank API's answer. *)
Record RerankResponseItem := {
  index : Z;
  rri_relevanceScore : Q
}.

Record CohereClient := {
  v2_rerank :
    string (* model *) -> string (* query *) -> list string (* documents *) ->
    Z (* topN *) -> Outcome (list RerankResponseItem)
}.

Record ChatResponse := {
  content : string;
  estimatedTokenUsage : option Z
}.

Record ChatOpenAI := {
  modelName : string;
  invoke : string (* system *) -> string (* user *) -> Outcome ChatResponse
}.

(** The clock and the clients built by [config/langchain.config] and by the
    Cohere SDK. *)
Record External := {
  clock : nat -> Z;
  getVectorStore : Outcome Chroma;
  newCohereClient : CohereClient;
  createChatModel : ChatOpenAI
}.

(** [Date.now()]: the next reading of the clock. *)
Definition Date_now (ext : External) : M Z :=
  fun w => (Ok (clock ext (ticks w)),
            {| ticks := S (ticks w); vectorStore := vectorStore w;
               trace := trace w |}).

(** ** VectorSearchService *)

Record VectorSearchOptions := {
  vs_k : option Z;
  vs_filter : option Filter
}.

Definition getStore (ext : External) : M Chroma :=
  fun w =>
    match vectorStore w with
    | Some store => (Ok store, w)
    | None =>
        match getVectorStore ext with
        | Ok store =>
            (Ok store, {| ticks := ticks w; vectorStore := Some store;
                          trace := trace w ++ [Net_getVectorStore] |})
        | Throw e =>
            (Throw e, {| ticks := ticks w; vectorStore := None;
                         trace := trace w ++ [Net_getVectorStore] |})
        end
    end.

Definition normalizeScore (distance : Q) : Q :=
  let similarity := (1 - distance)%Q in
  JS.Math_max 0 (JS.Math_min 1 similarity).

Definition toSearchResult (r : Document * Q) : SearchResult :=
  let (doc, sc) := r in
  let metadata := metadata doc in
  {| paper := {| title := md_title metadata;
                 authors := md_authors metadata;
                 year := md_year metadata;
                 pages := md_pages metadata;
                 link := md_link metadata;
                 code := md_code metadata |};
     score := normalizeScore sc;
     chunkContent := pageContent doc |}.

Definition search (env : Env) (ext : External)
    (qtext : string) (options : VectorSearchOptions) : M (list SearchResult) :=
  emit Invoke_search ;;
  startTime <- Date_now ext ;;
  let k := JS.or_default (vs_k options) (VECTOR_SEARCH_K env) in
  try_catch
    (store <- getStore ext ;;
     results <- await Net_similaritySearch
                  (similaritySearchWithScore store qtext k (vs_filter options)) ;;
     let searchResults := map toSearchResult results in
     endTime <- Date_now ext ;;
     ret searchResults)
    (fun error =>
       throw (Error ("Vector search failed: " ++ error_message error))).

(** ** CohereReranker *)

Record RerankOptions := {
  topK : option Z;
  model : option string
}.

Record CohereReranker := {
  client : option CohereClient;
  enabled : bool
}.

Definition new_CohereReranker (env : Env) (ext : External) : CohereReranker :=
  if isCohereEnabled env
  then {| client := Some (newCohereClient ext); enabled := true |}
  else {| client := None; enabled := false |}.

Definition isEnabled (self : CohereReranker) : bool := enabled self.

Definition fallbackToOriginalScores
    (candidates : list SearchResult) (topK : Z) : list RerankResult :=
  map (fun candidate =>
         {| base := candidate;
            rerankScore := score candidate;
            originalScore := score candidate |})
      (JS.slice0 candidates topK).

(** The callback of [response.results.map]: [{...originalCandidate, ...}]
    with [score] overwritten by the rerank score. *)
Definition mapRerankResult (candidates : list SearchResult)
    (result : RerankResponseItem) : M RerankResult :=
  match JS.index candidates (index result) with
  | None =>
      throw (Error ("Invalid rerank result index: "
                      ++ JS.string_of_Z (index result)))
  | Some originalCandidate =>
      ret {| base := {| paper := paper originalCandidate;
                        score := rri_relevanceScore result;
                        chunkContent := chunkContent originalCandidate |};
             rerankScore := rri_relevanceScore result;
             originalScore := score originalCandidate |}
  end.

Definition byRerankScoreDesc (a b : RerankResult) : Q :=
  (rerankScore b - rerankScore a)%Q.

Definition nl : string := String (ascii_of_nat 10) EmptyString.

Definition rerankDocument (candidate : SearchResult) : string :=
  title (paper candidate) ++ nl ++ nl ++ chunkContent candidate.

Definition rerank (env : Env) (ext : External) (self : CohereReranker)
    (qtext : string) (candidates : list SearchResult) (options : RerankOptions)
  : M (list RerankResult) :=
  emit Invoke_rerank ;;
  let topK := JS.or_default (topK options) (RERANK_TOP_K env) in
  match enabled self, client self with
  | true, Some client =>
      if (List.length candidates =? 0)%nat then ret []
      else
        startTime <- Date_now ext ;;
        try_catch
          (let documents := map rerankDocument candidates in
           response <- await Net_cohere_rerank
                         (v2_rerank client
                            (JS.or_string (model options) "rerank-english-v3.0")
                            qtext documents topK) ;;
           rerankedResults <- mapM (mapRerankResult candidates) response ;;
           let rerankedResults := JS.sort byRerankScoreDesc rerankedResults in
           endTime <- Date_now ext ;;
           ret rerankedResults)
          (fun error =>
             emit (Rerank_failed error) ;;
             ret (fallbackToOriginalScores candidates topK))
  | _, _ => ret (fallbackToOriginalScores candidates topK)
  end.

(** ** ResponseGenerator *)

Record GeneratedResponse := {
  gr_answer : string;
  gr_sources : list SourceReference;
  gr_modelUsed : string;
  tokensUsed : option Z
}.

Record ResponseGenerator := {
  chatModel : ChatOpenAI
}.

Definition new_ResponseGenerator (ext : External) : ResponseGenerator :=
  {| chatModel := createChatModel ext |}.

Definition NO_PAPERS_ANSWER : string :=
  "I could not find any relevant papers to answer your question. Please try rephrasing or asking about a different topic.".

Definition SYSTEM_PROMPT : string :=
  "You are an expert research assistant specializing in machine learning and artificial intelligence research. Your task is to answer questions about academic papers from the Journal of Machine Learning Research (JMLR).

Guidelines:
1. Base your answer ONLY on the provided paper contexts
2. Cite sources using [1], [2] format in your answer
3. Be concise but informative (2-3 paragraphs)
4. If multiple papers discuss the topic, synthesize their contributions
5. If the provided papers don't contain relevant information, say so clearly
6. Use technical terminology appropriately
7. Highlight key contributions and findings

Answer format:
- Start with a direct answer to the question
- Support claims with citations [1], [2]
- End with a brief summary if multiple papers are cited".

(** [ANSWER_TEMPLATE] with [{query}] and [{context}] filled in. *)
Definition formatAnswerTemplate (qtext context : string) : string :=
  "Question: " ++ qtext ++ nl ++ nl ++
  "Relevant Papers:" ++ nl ++ nl ++
  context ++ nl ++ nl ++
  "Please provide a comprehensive answer to the question, citing the papers using [1], [2] format. Focus on the key findings and contributions from these papers.".

(** The citation marker of the source at position [index]. *)
Definition citation (index : nat) : string :=
  "[" ++ JS.string_of_nat (index + 1) ++ "]".

(** The callback of [sources.map] in [buildContext]. *)
Definition contextEntry (source : RerankResult) (index : nat) : string :=
  JS.join nl
    [ citation index ++ " Title: " ++ title (paper (base source));
      "    Authors: " ++ authors (paper (base source));
      "    Year: " ++ JS.string_of_Z (year (paper (base source)));
      "    Relevant content: "
        ++ JS.substring0 500 (chunkContent (base source)) ++ "...";
      "" ].

Definition contextEntries (sources : list RerankResult) : list string :=
  JS.mapi contextEntry sources.

Definition buildContext (sources : list RerankResult) : string :=
  JS.join nl (contextEntries sources).

(** [maxLength * 0.7] is a product of doubles, and [lastPeriod] is
    compared with it as a double. Lengths and positions are in bytes: the
    ones of the code for ASCII [content]. *)
Definition extractExcerpt (content : string) (maxLength : nat) : string :=
  if (String.length content <=? maxLength)%nat then content
  else
    let excerpt := JS.substring0 maxLength content in
    let lastPeriod := JS.lastIndexOf "." excerpt in
    if JS.gt (JS.double_of_Z lastPeriod)
             (JS.mul (JS.double_of_Z (Z.of_nat maxLength)) JS.d0_7)
    then JS.substring0 (Z.to_nat (lastPeriod + 1)) excerpt
    else excerpt ++ "...".

(** The callback of [sources.map] in [generate]. *)
Definition toSourceReference (source : RerankResult) (index : nat)
  : SourceReference :=
  {| sr_title := title (paper (base source));
     sr_authors := authors (paper (base source));
     sr_year := year (paper (base source));
     sr_link := link (paper (base source));
     sr_pages := pages (paper (base source));
     relevanceScore := JS.or_num (rerankScore source) (score (base source));
     excerpt := extractExcerpt (chunkContent (base source)) 200 |}.

Definition generate (ext : External) (self : ResponseGenerator)
    (qtext : string) (sources : list RerankResult) : M GeneratedResponse :=
  emit Invoke_generate ;;
  startTime <- Date_now ext ;;
  if (List.length sources =? 0)%nat then
    ret {| gr_answer := NO_PAPERS_ANSWER;
           gr_sources := [];
           gr_modelUsed := modelName (chatModel self);
           tokensUsed := None |}
  else
    try_catch
      (let context := buildContext sources in
       let formattedPrompt := formatAnswerTemplate qtext context in
       response <- await Net_chat_invoke
                     (invoke (chatModel self) SYSTEM_PROMPT formattedPrompt) ;;
       let answer := content response in
       let sourceReferences := JS.mapi toSourceReference sources in
       endTime <- Date_now ext ;;
       ret {| gr_answer := answer;
              gr_sources := sourceReferences;
              gr_modelUsed := modelName (chatModel self);
              tokensUsed := estimatedTokenUsage response |})
      (fun error =>
         throw (Error ("Response generation failed: " ++ error_message error))).

(** ** RAGPipeline *)

Record RAGOptions := {
  opt_k : option Z;
  candidatesK : option Z;
  withReranking : option bool;
  temperature : option Q
}.

(** The [vectorSearch] field is the [vectorStore] handle kept in [World]. *)
Record RAGPipeline := {
  reranker : CohereReranker;
  responseGenerator : ResponseGenerator
}.

Definition new_RAGPipeline (env : Env) (ext : External) : RAGPipeline :=
  {| reranker := new_CohereReranker env ext;
     responseGenerator := new_ResponseGenerator ext |}.

Definition query (env : Env) (ext : External) (self : RAGPipeline)
    (qtext : string) (options : RAGOptions) : M QueryResponse :=
  pipelineStartTime <- Date_now ext ;;
  let candidatesK := JS.or_default (candidatesK options) (VECTOR_SEARCH_K env) in
  let finalK := JS.or_default (opt_k options) (RERANK_TOP_K env) in
  let withReranking :=
    match withReranking options with Some false => false | _ => true end in
  try_catch
    (stage1Start <- Date_now ext ;;
     candidates <- search env ext qtext
                     {| vs_k := Some candidatesK; vs_filter := None |} ;;
     stage1End <- Date_now ext ;;
     let retrievalTime := stage1End - stage1Start in
     let candidateCnt := Z.of_nat (List.length candidates) in
     if (List.length candidates =? 0)%nat then
       now <- Date_now ext ;;
       ret {| answer := NO_PAPERS_ANSWER;
              sources := [];
              qr_metadata :=
                {| retrievalTimeMs := retrievalTime;
                   rerankTimeMs := None;
                   generationTimeMs := 0;
                   totalTimeMs := now - pipelineStartTime;
                   candidateCount := candidateCnt;
                   finalCount := 0;
                   modelUsed := CHAT_MODEL env |} |}
     else
       stage2 <-
         (if withReranking && isEnabled (reranker self) then
            stage2Start <- Date_now ext ;;
            finalResults <- rerank env ext (reranker self) qtext candidates
                              {| topK := Some finalK; model := None |} ;;
            stage2End <- Date_now ext ;;
            ret (finalResults, Some (stage2End - stage2Start))
          else
            ret (map (fun candidate =>
                        {| base := candidate;
                           rerankScore := score candidate;
                           originalScore := score candidate |})
                     (JS.slice0 candidates finalK),
                 None)) ;;
       let finalResults := fst stage2 in
       stage3Start <- Date_now ext ;;
       generatedResponse <- generate ext (responseGenerator self)
                              qtext finalResults ;;
       stage3End <- Date_now ext ;;
       now <- Date_now ext ;;
       ret {| answer := gr_answer generatedResponse;
              sources := gr_sources generatedResponse;
              qr_metadata :=
                {| retrievalTimeMs := retrievalTime;
                   rerankTimeMs := snd stage2;
                   generationTimeMs := stage3End - stage3Start;
                   totalTimeMs := now - pipelineStartTime;
                   candidateCount := candidateCnt;
                   finalCount := Z.of_nat (List.length finalResults);
                   modelUsed := gr_modelUsed generatedResponse |} |})
    (fun error =>
       throw (Error ("RAG pipeline failed: " ++ error_message error))).

Record Improvement := {
  latencyDiff : Z;
  sourcesChanged : bool;
  avgScoreImprovement : JS.number
}.

Record Comparison := {
  cmp_withReranking : QueryResponse;
  cmp_withoutReranking : QueryResponse;
  improvement : Improvement
}.

(** [sources.reduce((sum, s) => sum + s.relevanceScore, 0)]. *)
Definition sumRelevance (srcs : list SourceReference) : Q :=
  fold_left (fun sum s => (sum + relevanceScore s)%Q) srcs 0%Q.

Definition avgScore (srcs : list SourceReference) : JS.number :=
  JS.div (sumRelevance srcs) (inject_Z (Z.of_nat (List.length srcs))).

Definition queryWithComparison (env : Env) (ext : External) (self : RAGPipeline)
    (qtext : string) : M Comparison :=
  both <- all2
            (query env ext self qtext
               {| opt_k := None; candidatesK := None;
                  withReranking := Some true; temperature := None |})
            (query env ext self qtext
               {| opt_k := None; candidatesK := None;
                  withReranking := Some false; temperature := None |}) ;;
  let withReranking := fst both in
  let withoutReranking := snd both in
  let latencyDiff :=
    totalTimeMs (qr_metadata withReranking)
    - totalTimeMs (qr_metadata withoutReranking) in
  let sourcesChanged :=
    JS.strict_neq
      (option_map sr_title (JS.index (sources withReranking) 0))
      (option_map sr_title (JS.index (sources withoutReranking) 0)) in
  let avgScoreWith := avgScore (sources withReranking) in
  let avgScoreWithout := avgScore (sources withoutReranking) in
  let avgScoreImprovement := JS.sub avgScoreWith avgScoreWithout in
  ret {| cmp_withReranking := withReranking;
         cmp_withoutReranking := withoutReranking;
         improvement :=
           {| latencyDiff := latencyDiff;
              sourcesChanged := sourcesChanged;
              avgScoreImprovement := avgScoreImprovement |} |}.

(** ** The batch route, [POST /api/query/batch] *)

(** The request body, already decoded to the shape the schema asks for; a
    body of another shape is rejected by the same branch. *)
Record BatchBody := {
  queries : list string;
  body_k : option Z;
  body_withReranking : option bool
}.

Record BatchResponse := {
  br_queries : Z;
  br_results : list QueryResponse;
  br_totalTimeMs : Z
}.

(** [batchSchema.safeParse(req.body).success]. *)
Definition batchSchema_success (body : BatchBody) : bool :=
  forallb (fun s => (1 <=? String.length s)%nat) (queries body)
  && (List.length (queries body) <=? 10)%nat
  && match body_k body with
     | Some k => (0 <? k) && (k <=? 20)
     | None => true
     end.

(** [results.reduce((sum, r) => sum + r.metadata.totalTimeMs, 0)]. *)
Definition sumTotalTimeMs (results : list QueryResponse) : Z :=
  fold_left (fun sum r => sum + totalTimeMs (qr_metadata r)) results 0.

Definition post_query_batch (env : Env) (ext : External) (body : BatchBody)
  : M BatchResponse :=
  if negb (batchSchema_success body) then
    throw (APIError 400 "Invalid request body")
  else
    let pipeline := new_RAGPipeline env ext in
    results <- all_map
                 (fun qtext =>
                    query env ext pipeline qtext
                      {| opt_k := body_k body; candidatesK := None;
                         withReranking := body_withReranking body;
                         temperature := None |})
                 (queries body) ;;
    ret {| br_queries := Z.of_nat (List.length (queries body));
           br_results := results;
           br_totalTimeMs := sumTotalTimeMs results |}.

(** ** Reference notions used by the statements *)

(** [clamp x lo hi], as the specification writes it. *)
Definition clamp (x lo hi : Q) : Q :=
  if Qle_bool lo x then (if Qle_bool x hi then x else hi) else lo.

(** Sum of a list of integers. *)
Definition sumZ (l : list Z) : Z := fold_right Z.add 0 l.

(** An index addresses an entry of the candidate array. *)
Definition in_bounds (candidates : list SearchResult) (i : Z) : Prop :=
  0 <= i < Z.of_nat (List.length candidates).

(** The requested size as [rerank] resolves it. *)
Definition resolvedTopK (env : Env) (options : RerankOptions) : Z :=
  JS.or_default (topK options) (RERANK_TOP_K env).

(** The arguments [rerank] passes to the scoring call, and its answer. *)
Definition scoringCall (env : Env) (client : CohereClient) (qtext : string)
    (candidates : list SearchResult) (options : RerankOptions)
  : Outcome (list RerankResponseItem) :=
  v2_rerank client (JS.or_string (model options) "rerank-english-v3.0")
    qtext (map rerankDocument candidates) (resolvedTopK env options).

(** The store handle that [getStore] yields in a given state. *)
Definition storeReady (ext : External) (w : World) (store : Chroma) : Prop :=
  vectorStore w = Some store
  \/ (vectorStore w = None /\ getVectorStore ext = Ok store).

(** The events a computation appended to the trace. *)
Definition appended (w w' : World) (evs : list Event) : Prop :=
  trace w' = (trace w ++ evs)%list.

(** The width [search] resolves. *)
Definition searchK (env : Env) (options : VectorSearchOptions) : Z :=
  JS.or_default (vs_k options) (VECTOR_SEARCH_K env).

(** [a] may stand before [b] under the comparator [cmp]. *)
Definition before {A} (cmp : A -> A -> Q) (a b : A) : Prop := (cmp a b <= 0)%Q.

(** Descending by rerank score. *)
Definition descByRerankScore (a b : RerankResult) : Prop :=
  (rerankScore b <= rerankScore a)%Q.

(** The entry [rerank] builds for a scored index that addresses [c]. *)
Definition rankedFrom (c : SearchResult) (r : RerankResponseItem) : RerankResult :=
  {| base := {| paper := paper c; score := rri_relevanceScore r;
                chunkContent := chunkContent c |};
     rerankScore := rri_relevanceScore r;
     originalScore := score c |}.

(** The state after [n] readings of the clock. *)
Definition elapse (n : nat) (w : World) : World :=
  {| ticks := n + ticks w; vectorStore := vectorStore w; trace := trace w |}.

(** The width [query] asks of the retrieval stage. *)
Definition candidateWidth (env : Env) (options : RAGOptions) : Z :=
  JS.or_default (candidatesK options) (VECTOR_SEARCH_K env).

(** The reranker is out of service for this call: it is disabled, or the
    scoring call fails, or its answer names an entry out of bounds. *)
Definition rerankDegraded (env : Env) (self : CohereReranker) (qtext : string)
    (candidates : list SearchResult) (options : RerankOptions) : Prop :=
  enabled self = false
  \/ client self = None
  \/ exists cl,
       enabled self = true /\ client self = Some cl /\ candidates <> []
       /\ ((exists e, scoringCall env cl qtext candidates options = Throw e)
           \/ (exists response,
                  scoringCall env cl qtext candidates options = Ok response
                  /\ Exists (fun r => ~ in_bounds candidates (index r)) response)).

(** A ranked candidate carries its original candidate unchanged. *)
Definition unranked (c : SearchResult) : RerankResult :=
  {| base := c; rerankScore := score c; originalScore := score c |}.

(** ** Concrete collaborators for the worked examples *)

Module Examples.

Definition mkDoc (t a : string) (y : Z) (text : string) : Document :=
  {| pageContent := text;
     metadata := {| paperId := t; md_title := t; md_authors := a;
                    md_year := y; md_pages := 12; md_link := "http://jmlr.org/" ++ t;
                    md_code := ""; chunkIndex := 0; totalChunks := 1 |} |}.

Definition docA := mkDoc "Kernels" "A. Smola" 2004 "Kernel methods map data.".
Definition docB := mkDoc "Boosting" "Y. Freund" 1999 "Boosting combines weak learners.".
Definition docC := mkDoc "Bandits" "P. Auer" 2002 "Bandit algorithms trade off exploration.".

(** A vector index that knows nothing about the query ["void"] and
    otherwise answers with three distances, two of them outside [0,2]. *)
Definition store : Chroma :=
  {| similaritySearchWithScore := fun qtext _ _ =>
       if String.eqb qtext "void" then Ok []
       else Ok [(docA, 1 # 4); (docB, 5 # 2); (docC, - (1 # 10))]%Q |}.

Definition item (i : Z) (s : Q) : RerankResponseItem :=
  {| index := i; rri_relevanceScore := s |}.

(** A scoring service that answers out of order. *)
Definition cohereUnsorted : CohereClient :=
  {| v2_rerank := fun _ _ _ _ => Ok [item 2 (3 # 10); item 0 (9 # 10); item 1 (1 # 2)] |}.

(** A scoring service that names an entry the caller never sent. *)
Definition cohereStray : CohereClient :=
  {| v2_rerank := fun _ _ _ _ => Ok [item 0 (9 # 10); item 7 (1 # 2)] |}.

(** A scoring service that is rate limited. *)
Definition cohereDown : CohereClient :=
  {| v2_rerank := fun _ _ _ _ => Throw (Error "rate limit exceeded") |}.

Definition chat : ChatOpenAI :=
  {| modelName := "gpt-4o-mini";
     invoke := fun _ _ =>
       Ok {| content := "Kernels are discussed in [1]."; estimatedTokenUsage := None |} |}.

Definition env (cohere : bool) : Env :=
  {| VECTOR_SEARCH_K := 20; RERANK_TOP_K := 5;
     CHAT_MODEL := "gpt-4o-mini"; isCohereEnabled := cohere |}.

Definition ext (cohere : CohereClient) : External :=
  {| clock := fun n => 1000 + 7 * Z.of_nat n;
     getVectorStore := Ok store;
     newCohereClient := cohere;
     createChatModel := chat |}.

Definition w0 : World := {| ticks := 0; vectorStore := None; trace := [] |}.

Definition candidates : list SearchResult :=
  map toSearchResult [(docA, 1 # 4); (docB, 5 # 2); (docC, - (1 # 10))]%Q.

Definition noOptions : RerankOptions := {| topK := None; model := None |}.

Definition ragDefaults : RAGOptions :=
  {| opt_k := None; candidatesK := None; withReranking := None;
     temperature := None |}.

(** A ranked candidate whose rerank score is [0] while its [score] field
    is not. *)
Definition zeroRanked : RerankResult :=
  {| base := {| paper := paper (toSearchResult (docA, 1 # 4)%Q);
                score := 1 # 2;
                chunkContent := "Kernel methods map data." |};
     rerankScore := 0;
     originalScore := 1 # 2 |}.

Definition generator : ResponseGenerator := {| chatModel := chat |}.

Definition ranked : list RerankResult := fallbackToOriginalScores candidates 2.

Definition smallBatch : BatchBody :=
  {| queries := ["void"; "kernels"]; body_k := Some 2;
     body_withReranking := Some false |}.

Definition bigBatch : BatchBody :=
  {| queries := repeat "kernels" 11; body_k := None;
     body_withReranking := None |}.

End Examples.

(** ** Further JavaScript primitives *)

Module JSMore.

(** ASCII letters of [s.toLowerCase()]; used where a concrete case map is
    needed.  The services take the case map as a parameter. *)
Definition lower_ascii (c : ascii) : ascii :=
  let n := nat_of_ascii c in
  if ((65 <=? n) && (n <=? 90))%nat then ascii_of_nat (n + 32) else c.

Fixpoint toLowerCase_ascii (s : string) : string :=
  match s with
  | EmptyString => EmptyString
  | String c t => String (lower_ascii c) (toLowerCase_ascii t)
  end.

End JSMore.

(** [l1] is [l2] with some entries left out, the order kept. *)
Inductive Subseq {A : Type} : list A -> list A -> Prop :=
| Subseq_nil : Subseq [] []
| Subseq_skip (x : A) (l1 l2 : list A) : Subseq l1 l2 -> Subseq l1 (x :: l2)
| Subseq_take (x : A) (l1 l2 : list A) : Subseq l1 l2 -> Subseq (x :: l1) (x :: l2).

(** ** VectorSearchService, the derived operations *)

Definition searchWithFilter (env : Env) (ext : External)
    (qtext : string) (filter : Filter) (k : option Z) : M (list SearchResult) :=
  search env ext qtext {| vs_k := k; vs_filter := Some filter |}.

(** [title.toLowerCase() !== paperTitle.toLowerCase()]. *)
Definition otherTitle (toLowerCase : string -> string) (paperTitle : string)
    (result : SearchResult) : bool :=
  negb (String.eqb (toLowerCase (title (paper result))) (toLowerCase paperTitle)).

(** [k] defaults to 5. *)
Definition findSimilarPapers (env : Env) (ext : External)
    (toLowerCase : string -> string) (paperTitle : string) (k : option Z)
  : M (list SearchResult) :=
  let k := match k with Some v => v | None => 5 end in
  results <- search env ext paperTitle
               {| vs_k := Some (k + 1); vs_filter := None |} ;;
  ret (JS.slice0 (List.filter (otherTitle toLowerCase paperTitle) results) k).

Definition inYearRange (startYear endYear : Z) (result : SearchResult) : bool :=
  (startYear <=? year (paper result)) && (year (paper result) <=? endYear).

(** [limit] defaults to 100. *)
Definition getPapersByYearRange (env : Env) (ext : External)
    (startYear endYear : Z) (limit : option Z) : M (list SearchResult) :=
  let limit := match limit with Some v => v | None => 100 end in
  results <- search env ext "machine learning research"
               {| vs_k := Some limit; vs_filter := None |} ;;
  ret (List.filter (inYearRange startYear endYear) results).

Definition VectorSearchService_healthCheck (env : Env) (ext : External) : M bool :=
  try_catch
    (store <- getStore ext ;;
     testResults <- search env ext "test" {| vs_k := Some 1; vs_filter := None |} ;;
     ret (0 <? List.length testResults)%nat)
    (fun error => ret false).

(** ** CohereReranker, the health check *)

Definition CohereReranker_healthCheck (self : CohereReranker) : M bool :=
  match enabled self, client self with
  | true, Some client =>
      try_catch
        (response <- await Net_cohere_rerank
                       (v2_rerank client "rerank-english-v3.0" "test"
                          ["test document"] 1) ;;
         ret true)
        (fun error => ret false)
  | _, _ => ret false
  end.

(** ** RAGPipeline, the health check *)

Record PipelineHealth := {
  ph_vectorSearch : bool;
  ph_reranker : bool;
  ph_overall : bool
}.

Definition RAGPipeline_healthCheck (env : Env) (ext : External)
    (self : RAGPipeline) : M PipelineHealth :=
  both <- all2 (VectorSearchService_healthCheck env ext)
               (CohereReranker_healthCheck (reranker self)) ;;
  let vectorSearchOk := fst both in
  let rerankerOk := snd both in
  let overall := vectorSearchOk in
  ret {| ph_vectorSearch := vectorSearchOk;
         ph_reranker := rerankerOk;
         ph_overall := overall |}.

(** ** The single-query route, [POST /api/query] *)

(** The request body, already decoded to the shape the schema asks for. *)
Record QueryBody := {
  qb_query : string;
  qb_k : option Z;
  qb_withReranking : option bool
}.

(** [querySchema.safeParse(req.body).success]. *)
Definition querySchema_success (body : QueryBody) : bool :=
  (1 <=? JS.length (qb_query body))%nat
  && (JS.length (qb_query body) <=? 500)%nat
  && match qb_k body with
     | Some k => (0 <? k) && (k <=? 20)
     | None => true
     end.

Definition post_query (env : Env) (ext : External) (body : QueryBody)
  : M QueryResponse :=
  if negb (querySchema_success body) then
    throw (APIError 400 "Invalid request body")
  else
    let pipeline := new_RAGPipeline env ext in
    query env ext pipeline (qb_query body)
      {| opt_k := qb_k body; candidatesK := None;
         withReranking := qb_withReranking body; temperature := None |}.

(** ** The error middleware *)




(** [res.status(code).json(body)]. *)
Record HttpReply (A : Type) := {
  http_status : Z;
  http_body : A
}.

Arguments http_status {A} _.
Arguments http_body {A} _.




(** ** The health route, [GET /api/health] *)

Record HealthServices := {
  chromadb : string;
  openai : string;
  cohere : string
}.

Record HealthResponse := {
  hr_status : string;
  hr_timestamp : string;
  hr_services : HealthServices;
  hr_version : string
}.

Definition VERSION : string := "1.0.0".

(** The route builds its own [RAGPipeline], whose vector search service
    starts without a store handle; the handle of the query routes'
    pipeline is another object and is left as it was. *)
Definition get_health (env : Env) (ext : External) (toISOString : Z -> string)
  : M (HttpReply HealthResponse) :=
  fun w =>
    let ragPipeline := new_RAGPipeline env ext in
    let fresh := {| ticks := ticks w; vectorStore := None; trace := trace w |} in
    match (health <- RAGPipeline_healthCheck env ext ragPipeline ;;
           now <- Date_now ext ;;
           ret {| http_status := if ph_overall health then 200 else 503;
                  http_body :=
                    {| hr_status := if ph_overall health then "healthy" else "unhealthy";
                       hr_timestamp := toISOString now;
                       hr_services :=
                         {| chromadb := if ph_vectorSearch health
                                        then "connected" else "disconnected";
                            openai := if ph_vectorSearch health
                                      then "connected" else "disconnected";
                            cohere := if ph_reranker health
                                      then "connected" else "unavailable" |};
                       hr_version := VERSION |} |}) fresh with
    | (r, w') =>
        (r, {| ticks := ticks w'; vectorStore := vectorStore w; trace := trace w' |})
    end.

(** ** Dataset statistics ([utils/csv-parser.ts]) *)

(** [Math.round] on a finite number: the nearest integer, halves upwards. *)
Definition Math_round (x : Q) : Z := Qfloor (x + (1 # 2)).

(** [Math.min(...xs)] and [Math.max(...xs)] on a non-empty list of integers,
    the first entry given apart. *)
Definition minOf (x : Z) (xs : list Z) : Z := fold_left Z.min xs x.
Definition maxOf (x : Z) (xs : list Z) : Z := fold_left Z.max xs x.

Record YearRange := {
  yr_min : Z;
  yr_max : Z
}.

Record Stats := {
  totalPapers : Z;
  yearRange : YearRange;
  avgPages : Q;
  withCode : Z;
  withoutCode : Z
}.

(** [p.code && p.code.length > 0]. *)
Definition hasCode (p : Paper) : bool :=
  negb (String.eqb (code p) "") && (0 <? String.length (code p))%nat.

(** [papers.reduce((sum, p) => sum + p.pages, 0)]. *)
Definition sumPages (papers : list Paper) : Z :=
  fold_left (fun sum p => sum + pages p) papers 0.

Definition calculateStats (papers : list Paper) : Stats :=
  match papers with
  | [] =>
      {| totalPapers := 0;
         yearRange := {| yr_min := 0; yr_max := 0 |};
         avgPages := 0;
         withCode := 0;
         withoutCode := 0 |}
  | p0 :: rest =>
      let years := map year papers in
      let avgPages :=
        (inject_Z (sumPages papers) / inject_Z (Z.of_nat (List.length papers)))%Q in
      let withCode := Z.of_nat (List.length (List.filter hasCode papers)) in
      {| totalPapers := Z.of_nat (List.length papers);
         yearRange := {| yr_min := minOf (year p0) (map year rest);
                         yr_max := maxOf (year p0) (map year rest) |};
         avgPages := (inject_Z (Math_round (avgPages * 10)) / 10)%Q;
         withCode := withCode;
         withoutCode := Z.of_nat (List.length papers) - withCode |}
  end.

(** A JavaScript object keyed by year, as the list of its entries. *)
Definition YearObject := list (Z * list Paper).

(** [grouped[y]]. *)
Fixpoint year_get (grouped : YearObject) (y : Z) : option (list Paper) :=
  match grouped with
  | [] => None
  | (k, v) :: t => if k =? y then Some v else year_get t y
  end.

(** [grouped[y] = v]. *)
Fixpoint year_set (grouped : YearObject) (y : Z) (v : list Paper) : YearObject :=
  match grouped with
  | [] => [(y, v)]
  | (k, u) :: t => if k =? y then (k, v) :: t else (k, u) :: year_set t y v
  end.

(** The body of the [forEach] in [groupByYear]; [push] appends. *)
Definition groupStep (grouped : YearObject) (paper : Paper) : YearObject :=
  let grouped :=
    match year_get grouped (year paper) with
    | None => year_set grouped (year paper) []
    | Some _ => grouped
    end in
  match year_get grouped (year paper) with
  | Some l => year_set grouped (year paper) (l ++ [paper])
  | None => grouped
  end.

Definition groupByYear (papers : list Paper) : YearObject :=
  fold_left groupStep papers [].

(** ** Notions used by the further statements *)

(** The size [query] asks of the rerank stage. *)
Definition finalWidth (env : Env) (options : RAGOptions) : Z :=
  JS.or_default (opt_k options) (RERANK_TOP_K env).

(** [query] runs the rerank stage: reranking was not switched off and the
    reranker has a credential. *)
Definition rerankRuns (self : RAGPipeline) (options : RAGOptions) : bool :=
  match withReranking options with Some false => false | _ => true end
  && isEnabled (reranker self).

(** The clock never runs backwards. *)
Definition monotone (clock : nat -> Z) : Prop :=
  forall n m, (n <= m)%nat -> clock n <= clock m.

(** [s] opens with [p]. *)
Definition startsWith (p s : string) : Prop := exists rest, s = p ++ rest.



(** The vector index is reachable from a new service and answers the test
    query of the health check with at least one document. *)
Definition vectorSearchUp (ext : External) : Prop :=
  exists store raw,
    getVectorStore ext = Ok store
    /\ similaritySearchWithScore store "test" 1 None = Ok raw
    /\ raw <> [].

(** There is a credential and the test call of the reranker's health
    check succeeds. *)
Definition cohereUp (env : Env) (ext : External) : Prop :=
  isCohereEnabled env = true
  /\ exists response,
       v2_rerank (newCohereClient ext) "rerank-english-v3.0" "test"
         ["test document"] 1 = Ok response.

(** Position [p] holds the last period of [s]; [s] holds no period. *)
Definition lastPeriodAt (s : string) (p : nat) : Prop :=
  String.get p s = Some "."%char
  /\ forall j, (p < j)%nat -> String.get j s <> Some "."%char.

Definition noPeriod (s : string) : Prop :=
  forall j, String.get j s <> Some "."%char.

(** Position [p] exceeds the product [maxLength * 0.7] of the code. *)
Definition beyondThreshold (maxLength p : nat) : bool :=
  JS.gt (JS.double_of_Z (Z.of_nat p))
        (JS.mul (JS.double_of_Z (Z.of_nat maxLength)) JS.d0_7).

(** What the rerank stage of [query] hands on, from the state [w1] the
    retrieval left: the final results, the rerank time if the stage ran,
    and the state after it. *)
Definition stageTwo (env : Env) (ext : External) (self : RAGPipeline)
    (qtext : string) (options : RAGOptions) (candidates : list SearchResult)
    (w1 : World) (finalResults : list RerankResult) (rerankTime : option Z)
    (s2 : World) : Prop :=
  (rerankRuns self options = false
   /\ finalResults = map unranked (JS.slice0 candidates (finalWidth env options))
   /\ rerankTime = None
   /\ s2 = elapse 1 w1)
  \/ (rerankRuns self options = true
      /\ exists w2,
           rerank env ext (reranker self) qtext candidates
             {| topK := Some (finalWidth env options); model := None |}
             (elapse 2 w1) = (Ok finalResults, w2)
           /\ rerankTime = Some (clock ext (ticks w2) - clock ext (S (ticks w1)))
           /\ s2 = elapse 1 w2).

(** The response of a [query] that went through all its stages. *)
Definition fullResponse (ext : External) (w w1 s2 w3 : World)
    (candidates : list SearchResult) (finalResults : list RerankResult)
    (rerankTime : option Z) (g : GeneratedResponse) : QueryResponse :=
  {| answer := gr_answer g;
     sources := gr_sources g;
     qr_metadata :=
       {| retrievalTimeMs := clock ext (ticks w1) - clock ext (S (ticks w));
          rerankTimeMs := rerankTime;
          generationTimeMs := clock ext (ticks w3) - clock ext (ticks s2);
          totalTimeMs := clock ext (S (ticks w3)) - clock ext (ticks w);
          candidateCount := Z.of_nat (List.length candidates);
          finalCount := Z.of_nat (List.length finalResults);
          modelUsed := gr_modelUsed g |} |}.

(** The response of a [query] whose retrieval found nothing. *)
Definition emptyResponse (env : Env) (ext : External) (w w1 : World)
  : QueryResponse :=
  {| answer := NO_PAPERS_ANSWER;
     sources := [];
     qr_metadata :=
       {| retrievalTimeMs := clock ext (ticks w1) - clock ext (S (ticks w));
          rerankTimeMs := None;
          generationTimeMs := 0;
          totalTimeMs := clock ext (S (ticks w1)) - clock ext (ticks w);
          candidateCount := 0;
          finalCount := 0;
          modelUsed := CHAT_MODEL env |} |}.

(** The call [query] makes to the retrieval stage. *)
Definition retrieval (env : Env) (ext : External) (qtext : string)
    (options : RAGOptions) (w : World) : Outcome (list SearchResult) * World :=
  search env ext qtext
    {| vs_k := Some (candidateWidth env options); vs_filter := None |}
    (elapse 2 w).


(** More concrete collaborators. *)
Module MoreExamples.

(** A vector index that cannot be reached. *)
Definition extOffline : External :=
  {| clock := fun n => 1000 + 7 * Z.of_nat n;
     getVectorStore := Throw (Error "ECONNREFUSED");
     newCohereClient := Examples.cohereDown;
     createChatModel := Examples.chat |}.

(** A chat model that is out of quota. *)
Definition chatDown : ChatOpenAI :=
  {| modelName := "gpt-4o-mini";
     invoke := fun _ _ => Throw (Error "quota exceeded") |}.


Definition noRerank : RAGOptions :=
  {| opt_k := Some 2; candidatesK := None; withReranking := Some false;
     temperature := None |}.

Definition longText : string :=
  "Kernel methods map data into a feature space. The kernel trick avoids computing the map. Support vector machines use it for classification of points. That is all we need here, and the rest of this sentence only serves to make the text long enough to be cut somewhere after the two hundredth character".

(** A text whose only period stands at position 63, seven tenths of 90. *)
Definition textOfNinety : string :=
  "Boosting combines weak learners into one strong learner by vote. and the rest of this text has no further full stop so that a cut has to be made".

Definition plain : VectorSearchOptions := {| vs_k := None; vs_filter := None |}.

Definition pipelineOff : RAGPipeline :=
  new_RAGPipeline (Examples.env false) (Examples.ext Examples.cohereDown).


Definition emptyQueryBody : QueryBody :=
  {| qb_query := ""; qb_k := None; qb_withReranking := None |}.

(** The two bytes of an accented letter ([U+00E9]), and a query of 251 of
    them: 502 bytes, 251 UTF-16 code units. *)
Definition eAcute : string :=
  String (ascii_of_nat 195) (String (ascii_of_nat 169) EmptyString).

Definition accentedBody : QueryBody :=
  {| qb_query := String.concat EmptyString (List.repeat eAcute 251);
     qb_k := Some 2; qb_withReranking := Some false |}.

Definition emptyBatch : BatchBody :=
  {| queries := []; body_k := Some 5; body_withReranking := None |}.

Definition blankBatch : BatchBody :=
  {| queries := ["kernels"; ""]; body_k := None; body_withReranking := None |}.

Definition mkPaper (t : string) (y p : Z) (c : string) : Paper :=
  {| title := t; authors := "A. Author"; year := y; pages := p;
     link := ""; code := c |}.

Definition corpus : list Paper :=
  [ mkPaper "A" 2004 10 "http://code/a"; mkPaper "B" 1999 25 "";
    mkPaper "C" 2004 12 "" ].

End MoreExamples.

(** ** Comparisons on rationals *)

Lemma Qle_bool_false (a b : Q) : Qle_bool a b = false -> (b < a)%Q.
Proof.
  intros H. apply Qnot_le_lt. intros Hle.
  apply Qle_bool_iff in Hle. congruence.
Qed.

(** ** Score normalisation *)

Ltac qle_cases :=
  repeat match goal with
         | |- context [Qle_bool ?a ?b] => destruct (Qle_bool a b) eqn:?
         end;
  repeat match goal with
         | H : Qle_bool _ _ = true |- _ => apply Qle_bool_iff in H
         | H : Qle_bool _ _ = false |- _ => apply Qle_bool_false in H
         end.

Lemma normalizeScore_clamp (d : Q) : (normalizeScore d == clamp (1 - d) 0 1)%Q.
Proof.
  unfold normalizeScore, clamp, JS.Math_max, JS.Math_min.
  destruct (Qle_bool 1 (1 - d)) eqn:?; qle_cases; lra.
Qed.

Lemma normalizeScore_range (d : Q) : (0 <= normalizeScore d <= 1)%Q.
Proof.
  unfold normalizeScore, JS.Math_max, JS.Math_min.
  destruct (Qle_bool 1 (1 - d)) eqn:?; qle_cases; lra.
Qed.

(** ** The retrieval stage *)

(** What [search] does, by the cases of its two external calls. *)
Lemma search_run env ext qtext options w :
  (exists store raw w',
      storeReady ext w store
      /\ similaritySearchWithScore store qtext (searchK env options) (vs_filter options) = Ok raw
      /\ search env ext qtext options w = (Ok (map toSearchResult raw), w')
      /\ vectorStore w' = Some store
      /\ ticks w' = S (S (ticks w))
      /\ exists evs, appended w w' evs
           /\ incl evs [Invoke_search; Net_getVectorStore; Net_similaritySearch])
  \/ (exists e w', search env ext qtext options w = (Throw e, w')).
Proof.
  unfold search, searchK, bind, try_catch, emit, Date_now, getStore, await, ret, throw,
    storeReady, appended.
  cbn [ticks vectorStore trace].
  destruct (vectorStore w) as [store|] eqn:Hs.
  - cbn. destruct (similaritySearchWithScore store qtext _ _) as [raw|e] eqn:Hc; cbn.
    + left. exists store, raw. eexists. repeat split; eauto.
      eexists. split; [rewrite <- app_assoc; reflexivity|].
      cbn. intros x [<-|[<-|[]]]; cbn; auto.
    + right. eauto.
  - destruct (getVectorStore ext) as [store|e] eqn:Hg; cbn.
    + destruct (similaritySearchWithScore store qtext _ _) as [raw|e] eqn:Hc; cbn.
      * left. exists store, raw. eexists. repeat split; eauto.
        eexists. split; [repeat rewrite <- app_assoc; reflexivity|].
        cbn. intros x [<-|[<-|[<-|[]]]]; cbn; auto.
      * right. eauto.
    + right. eauto.
Qed.

(** ** Sorting with a comparator *)

Section SortFacts.

Context {A : Type} (cmp : A -> A -> Q).
Hypothesis cmp_total : forall x y, ~ before cmp x y -> before cmp y x.
Hypothesis cmp_trans : forall x y z, before cmp x y -> before cmp y z -> before cmp x z.

Lemma insert_perm (x : A) (l : list A) : Permutation (x :: l) (JS.insert cmp x l).
Proof.
  induction l as [|y t IH]; cbn.
  - apply Permutation_refl.
  - destruct (Qle_bool (cmp x y) 0).
    + apply Permutation_refl.
    + eapply perm_trans; [apply perm_swap|]. apply perm_skip, IH.
Qed.

Lemma sort_perm (l : list A) : Permutation l (JS.sort cmp l).
Proof.
  induction l as [|x t IH]; cbn.
  - constructor.
  - eapply perm_trans; [apply perm_skip, IH|]. apply insert_perm.
Qed.

Lemma insert_sorted (x : A) (l : list A) :
  StronglySorted (before cmp) l -> StronglySorted (before cmp) (JS.insert cmp x l).
Proof.
  induction 1 as [|y t Hs IH Hy]; cbn.
  - repeat constructor.
  - destruct (Qle_bool (cmp x y) 0) eqn:E.
    + apply Qle_bool_iff in E.
      constructor; [constructor; assumption|].
      constructor; [exact E|].
      eapply Forall_impl; [|exact Hy]. intros z Hz. eapply cmp_trans; eauto.
    + constructor; [exact IH|].
      assert (Hyx : before cmp y x).
      { apply cmp_total. intros H. apply Qle_bool_iff in H.
        unfold before in *. congruence. }
      eapply Permutation_Forall; [apply insert_perm|].
      constructor; assumption.
Qed.

Lemma sort_sorted (l : list A) : StronglySorted (before cmp) (JS.sort cmp l).
Proof.
  induction l as [|x t IH]; cbn.
  - constructor.
  - apply insert_sorted, IH.
Qed.

End SortFacts.

Lemma StronglySorted_weaken {A} (R R' : A -> A -> Prop) (l : list A) :
  (forall a b, R a b -> R' a b) -> StronglySorted R l -> StronglySorted R' l.
Proof.
  intros HR. induction 1 as [|x t Hs IH Hx]; constructor; auto.
  eapply Forall_impl; [|exact Hx]. auto.
Qed.

Lemma byRerankScoreDesc_before (a b : RerankResult) :
  before byRerankScoreDesc a b <-> descByRerankScore a b.
Proof. unfold before, byRerankScoreDesc, descByRerankScore. split; intros; lra. Qed.

Lemma sort_by_rerankScore (l : list RerankResult) :
  StronglySorted descByRerankScore (JS.sort byRerankScoreDesc l)
  /\ Permutation l (JS.sort byRerankScoreDesc l).
Proof.
  split.
  - apply (StronglySorted_weaken (before byRerankScoreDesc)).
    + intros a b. apply byRerankScoreDesc_before.
    + apply sort_sorted; unfold before, byRerankScoreDesc; intros; lra.
  - apply sort_perm.
Qed.

(** ** Index validation in the reranker *)

Lemma index_in_bounds (candidates : list SearchResult) (i : Z) :
  in_bounds candidates i -> exists c, JS.index candidates i = Some c.
Proof.
  unfold in_bounds, JS.index. intros [Hlo Hhi].
  destruct (Z.ltb_spec i 0) as [|_]; [lia|].
  destruct (nth_error candidates (Z.to_nat i)) as [c|] eqn:E; [eauto|].
  apply nth_error_None in E. lia.
Qed.

Lemma index_out_of_bounds (candidates : list SearchResult) (i : Z) :
  ~ in_bounds candidates i -> JS.index candidates i = None.
Proof.
  unfold in_bounds, JS.index. intros H.
  destruct (Z.ltb_spec i 0) as [|Hlo]; [reflexivity|].
  apply nth_error_None. lia.
Qed.

Lemma in_bounds_dec (candidates : list SearchResult) (i : Z) :
  {in_bounds candidates i} + {~ in_bounds candidates i}.
Proof.
  unfold in_bounds.
  destruct (Z_le_dec 0 i); [|right; lia].
  destruct (Z_lt_dec i (Z.of_nat (List.length candidates))); [left|right]; lia.
Qed.

(** The first entry of a response that is out of bounds. *)
Lemma first_out_of_bounds (candidates : list SearchResult)
    (response : list RerankResponseItem) :
  Exists (fun r => ~ in_bounds candidates (index r)) response ->
  exists pre bad post,
    response = (pre ++ bad :: post)%list
    /\ Forall (fun r => in_bounds candidates (index r)) pre
    /\ ~ in_bounds candidates (index bad).
Proof.
  induction response as [|r t IH]; intros H.
  - inversion H.
  - destruct (in_bounds_dec candidates (index r)) as [Hin|Hout].
    + inversion H as [? ? Hr|? ? Ht]; subst; [contradiction|].
      destruct (IH Ht) as (pre & bad & post & -> & Hpre & Hbad).
      exists (r :: pre), bad, post. repeat split; auto.
    + exists [], r, t. repeat split; auto.
Qed.

Lemma mapM_in_bounds (candidates : list SearchResult)
    (response : list RerankResponseItem) :
  Forall (fun r => in_bounds candidates (index r)) response ->
  exists mapped,
    (forall w, mapM (mapRerankResult candidates) response w = (Ok mapped, w))
    /\ Forall2 (fun r m => exists c, JS.index candidates (index r) = Some c
                                     /\ m = rankedFrom c r) response mapped.
Proof.
  induction 1 as [|r t Hr Ht (mapped & Hrun & Hall)].
  - exists []. split; [reflexivity|constructor].
  - destruct (index_in_bounds _ _ Hr) as [c Hc].
    exists (rankedFrom c r :: mapped). split.
    + intros w. cbn. unfold bind, mapRerankResult. rewrite Hc. cbn.
      rewrite Hrun. reflexivity.
    + constructor; eauto.
Qed.

Lemma mapM_out_of_bounds (candidates : list SearchResult)
    (pre post : list RerankResponseItem) (bad : RerankResponseItem) :
  Forall (fun r => in_bounds candidates (index r)) pre ->
  ~ in_bounds candidates (index bad) ->
  forall w,
    mapM (mapRerankResult candidates) (pre ++ bad :: post) w
    = (Throw (Error ("Invalid rerank result index: " ++ JS.string_of_Z (index bad))), w).
Proof.
  intros Hpre Hbad. induction Hpre as [|r t Hr Ht IH]; intros w; cbn.
  - unfold bind, mapRerankResult. rewrite (index_out_of_bounds _ _ Hbad). reflexivity.
  - destruct (index_in_bounds _ _ Hr) as [c Hc].
    unfold bind at 1. unfold mapRerankResult at 1. rewrite Hc. cbn.
    unfold bind at 1. rewrite IH. reflexivity.
Qed.

(** ** The four ways [rerank] can go *)

Lemma candidates_nonempty (candidates : list SearchResult) :
  candidates <> [] -> (List.length candidates =? 0)%nat = false.
Proof. destruct candidates; [congruence|reflexivity]. Qed.

Lemma rerank_disabled env ext self qtext candidates options w :
  enabled self = false \/ client self = None ->
  exists w',
    rerank env ext self qtext candidates options w
    = (Ok (fallbackToOriginalScores candidates (resolvedTopK env options)), w')
    /\ appended w w' [Invoke_rerank].
Proof.
  intros H. unfold rerank, bind, emit, ret, appended, resolvedTopK. cbn.
  destruct H as [-> | ->].
  - eexists; split; reflexivity.
  - destruct (enabled self); eexists; split; reflexivity.
Qed.

Lemma rerank_call_throws env ext self cl qtext candidates options w e :
  enabled self = true -> client self = Some cl -> candidates <> [] ->
  scoringCall env cl qtext candidates options = Throw e ->
  exists w',
    rerank env ext self qtext candidates options w
    = (Ok (fallbackToOriginalScores candidates (resolvedTopK env options)), w')
    /\ appended w w' [Invoke_rerank; Net_cohere_rerank; Rerank_failed e].
Proof.
  intros He Hc Hne Hcall. unfold scoringCall in Hcall.
  unfold rerank, bind, emit, ret, appended, try_catch, Date_now, await. cbn.
  rewrite He, Hc, (candidates_nonempty _ Hne). fold (resolvedTopK env options).
  rewrite Hcall. cbn. eexists; split; [reflexivity|].
  cbn. rewrite <- !app_assoc. reflexivity.
Qed.

(** The answer names an entry out of bounds, [bad] being the first: the
    mapping step throws there, and the catch block reports that error. *)
Lemma rerank_stray_at env ext self cl qtext candidates options w pre bad post :
  enabled self = true -> client self = Some cl -> candidates <> [] ->
  scoringCall env cl qtext candidates options = Ok (pre ++ bad :: post)%list ->
  Forall (fun r => in_bounds candidates (index r)) pre ->
  ~ in_bounds candidates (index bad) ->
  exists w',
    rerank env ext self qtext candidates options w
    = (Ok (fallbackToOriginalScores candidates (resolvedTopK env options)), w')
    /\ appended w w'
         [Invoke_rerank; Net_cohere_rerank;
          Rerank_failed (Error ("Invalid rerank result index: "
                                  ++ JS.string_of_Z (index bad)))]
    /\ ticks w' = S (ticks w).
Proof.
  intros He Hc Hne Hcall Hpre Hbad. unfold scoringCall in Hcall.
  unfold rerank, bind, emit, ret, appended, try_catch, Date_now, await. cbn.
  rewrite He, Hc, (candidates_nonempty _ Hne). fold (resolvedTopK env options).
  rewrite Hcall. cbn.
  rewrite (mapM_out_of_bounds candidates pre post bad Hpre Hbad). cbn.
  eexists; split; [reflexivity|].
  cbn. rewrite <- !app_assoc. split; reflexivity.
Qed.

Lemma rerank_stray_index env ext self cl qtext candidates options w response :
  enabled self = true -> client self = Some cl -> candidates <> [] ->
  scoringCall env cl qtext candidates options = Ok response ->
  Exists (fun r => ~ in_bounds candidates (index r)) response ->
  exists w',
    rerank env ext self qtext candidates options w
    = (Ok (fallbackToOriginalScores candidates (resolvedTopK env options)), w')
    /\ exists error,
         appended w w' [Invoke_rerank; Net_cohere_rerank; Rerank_failed error].
Proof.
  intros He Hc Hne Hcall Hex.
  destruct (first_out_of_bounds _ _ Hex) as (pre & bad & post & -> & Hpre & Hbad).
  destruct (rerank_stray_at env ext self cl qtext candidates options w pre bad post)
    as (w' & Hrun & Happ & _); auto.
  exists w'. split; [exact Hrun|]. eexists. exact Happ.
Qed.

Lemma rerank_succeeds env ext self cl qtext candidates options w response mapped :
  enabled self = true -> client self = Some cl -> candidates <> [] ->
  scoringCall env cl qtext candidates options = Ok response ->
  (forall w0, mapM (mapRerankResult candidates) response w0 = (Ok mapped, w0)) ->
  exists w',
    rerank env ext self qtext candidates options w
    = (Ok (JS.sort byRerankScoreDesc mapped), w')
    /\ appended w w' [Invoke_rerank; Net_cohere_rerank].
Proof.
  intros He Hc Hne Hcall Hmap. unfold scoringCall in Hcall.
  unfold rerank, bind, emit, ret, appended, try_catch, Date_now, await. cbn.
  rewrite He, Hc, (candidates_nonempty _ Hne). fold (resolvedTopK env options).
  rewrite Hcall. cbn. rewrite Hmap. cbn.
  eexists; split; [reflexivity|].
  cbn. rewrite <- app_assoc. reflexivity.
Qed.

(** ** The fallback projection *)

Lemma fallback_unranked (candidates : list SearchResult) (k : Z) :
  fallbackToOriginalScores candidates k = map unranked (JS.slice0 candidates k).
Proof. reflexivity. Qed.

Lemma slice0_nonneg {A} (l : list A) (k : Z) :
  0 <= k ->
  JS.slice0 l k = firstn (Z.to_nat (Z.min k (Z.of_nat (List.length l)))) l.
Proof.
  intros Hk. unfold JS.slice0. destruct (Z.ltb_spec k 0); [lia|reflexivity].
Qed.

Lemma fallback_shape (candidates : list SearchResult) (k : Z) :
  0 <= k ->
  let n := Z.min k (Z.of_nat (List.length candidates)) in
  Z.of_nat (List.length (fallbackToOriginalScores candidates k)) = n
  /\ map base (fallbackToOriginalScores candidates k) = firstn (Z.to_nat n) candidates
  /\ Forall (fun r => rerankScore r = originalScore r
                      /\ originalScore r = score (base r))
       (fallbackToOriginalScores candidates k).
Proof.
  intros Hk n. rewrite fallback_unranked, (slice0_nonneg _ _ Hk). fold n.
  repeat split.
  - rewrite length_map, length_firstn. lia.
  - rewrite map_map. cbn. apply map_id.
  - apply Forall_forall. intros r Hr. apply in_map_iff in Hr.
    destruct Hr as (c & <- & _). split; reflexivity.
Qed.

(** What [slice(0, k)] keeps, for every [k]. *)
Lemma fallback_kept (candidates : list SearchResult) (k : Z) :
  let len := Z.of_nat (List.length candidates) in
  let n := if k <? 0 then Z.max (len + k) 0 else Z.min k len in
  Z.of_nat (List.length (fallbackToOriginalScores candidates k)) = n
  /\ map base (fallbackToOriginalScores candidates k) = firstn (Z.to_nat n) candidates
  /\ Forall (fun r => rerankScore r = originalScore r
                      /\ originalScore r = score (base r))
       (fallbackToOriginalScores candidates k).
Proof.
  intros len n. rewrite fallback_unranked.
  change (JS.slice0 candidates k) with (firstn (Z.to_nat n) candidates).
  repeat split.
  - rewrite length_map, length_firstn. subst n len.
    destruct (Z.ltb_spec k 0); lia.
  - rewrite map_map. cbn. apply map_id.
  - apply Forall_forall. intros r Hr. apply in_map_iff in Hr.
    destruct Hr as (c & <- & _). split; reflexivity.
Qed.

(** ** Claims on the reranker *)

(** C1. When the answer of the scoring call names an entry outside the
    candidate array, [rerank] does not skip or mis-map it: the mapping
    step throws [Invalid rerank result index] at the first such entry,
    after the scoring call and before the closing clock reading; the catch
    block of [rerank] reports that very error and [rerank] resolves, with
    the candidates that [slice(0, topK)] keeps, in their order, each with
    [rerankScore = originalScore = score]. *)
Theorem rerank_stray_index_raises_then_falls_back
    env ext self cl qtext candidates options w response :
  enabled self = true -> client self = Some cl -> candidates <> [] ->
  scoringCall env cl qtext candidates options = Ok response ->
  Exists (fun r => ~ in_bounds candidates (index r)) response ->
  let k := resolvedTopK env options in
  let len := Z.of_nat (List.length candidates) in
  let n := if k <? 0 then Z.max (len + k) 0 else Z.min k len in
  exists pre bad post out w',
    response = (pre ++ bad :: post)%list
    /\ Forall (fun r => in_bounds candidates (index r)) pre
    /\ ~ in_bounds candidates (index bad)
    /\ rerank env ext self qtext candidates options w = (Ok out, w')
    /\ appended w w'
         [Invoke_rerank; Net_cohere_rerank;
          Rerank_failed (Error ("Invalid rerank result index: "
                                  ++ JS.string_of_Z (index bad)))]
    /\ ticks w' = S (ticks w)
    /\ Z.of_nat (List.length out) = n
    /\ map base out = firstn (Z.to_nat n) candidates
    /\ Forall (fun r => rerankScore r = originalScore r
                        /\ originalScore r = score (base r)) out.
Proof.
  intros He Hc Hne Hcall Hex k len n.
  destruct (first_out_of_bounds _ _ Hex) as (pre & bad & post & -> & Hpre & Hbad).
  destruct (rerank_stray_at env ext self cl qtext candidates options w pre bad post)
    as (w' & Hrun & Happ & Hticks); auto.
  exists pre, bad, post, (fallbackToOriginalScores candidates k), w'.
  split; [reflexivity|]. split; [exact Hpre|]. split; [exact Hbad|].
  split; [exact Hrun|]. split; [exact Happ|]. split; [exact Hticks|].
  destruct (fallback_kept candidates k) as (Hlen & Hbase & Hscores).
  repeat split; assumption.
Qed.

(** C2, amended. For a requested size that is not negative: when the
    reranker is disabled, or the scoring call fails, or its answer names
    an entry out of bounds, [rerank] returns the first
    [min topK (length candidates)] candidates in their order, each with
    [rerankScore = originalScore = score]. *)
Theorem rerank_degraded_is_fallback_projection
    env ext self qtext candidates options w :
  0 <= resolvedTopK env options ->
  rerankDegraded env self qtext candidates options ->
  let n := Z.min (resolvedTopK env options) (Z.of_nat (List.length candidates)) in
  exists out w',
    rerank env ext self qtext candidates options w = (Ok out, w')
    /\ Z.of_nat (List.length out) = n
    /\ map base out = firstn (Z.to_nat n) candidates
    /\ Forall (fun r => rerankScore r = originalScore r
                        /\ originalScore r = score (base r)) out.
Proof.
  intros Hk Hdeg n.
  assert (Hrun : exists w',
             rerank env ext self qtext candidates options w
             = (Ok (fallbackToOriginalScores candidates (resolvedTopK env options)), w')).
  { destruct Hdeg as [Hd | [Hd | (cl & He & Hc & Hne & [[e Hcall] | (response & Hcall & Hex)])]].
    - destruct (rerank_disabled env ext self qtext candidates options w (or_introl Hd))
        as (w' & H & _); eauto.
    - destruct (rerank_disabled env ext self qtext candidates options w (or_intror Hd))
        as (w' & H & _); eauto.
    - destruct (rerank_call_throws env ext self cl qtext candidates options w e)
        as (w' & H & _); eauto.
    - destruct (rerank_stray_index env ext self cl qtext candidates options w response)
        as (w' & H & _); eauto. }
  destruct Hrun as [w' Hrun].
  destruct (fallback_shape candidates _ Hk) as (Hlen & Hbase & Hscores).
  exists (fallbackToOriginalScores candidates (resolvedTopK env options)), w'.
  repeat split; assumption.
Qed.

(** C3. When the scoring call succeeds and every index it returns is in
    bounds, [rerank] returns the mapped entries sorted by [rerankScore],
    highest first, whatever order the scoring call answered in. *)
Theorem rerank_success_sorted_descending
    env ext self cl qtext candidates options w response :
  enabled self = true -> client self = Some cl -> candidates <> [] ->
  scoringCall env cl qtext candidates options = Ok response ->
  Forall (fun r => in_bounds candidates (index r)) response ->
  exists mapped out w',
    Forall2 (fun r m => exists c, JS.index candidates (index r) = Some c
                                  /\ m = rankedFrom c r) response mapped
    /\ rerank env ext self qtext candidates options w = (Ok out, w')
    /\ out = JS.sort byRerankScoreDesc mapped
    /\ StronglySorted descByRerankScore out
    /\ Permutation mapped out.
Proof.
  intros He Hc Hne Hcall Hin.
  destruct (mapM_in_bounds _ _ Hin) as (mapped & Hmap & Hall).
  destruct (rerank_succeeds env ext self cl qtext candidates options w response mapped)
    as (w' & Hrun & _); auto.
  destruct (sort_by_rerankScore mapped) as [Hsorted Hperm].
  exists mapped, (JS.sort byRerankScoreDesc mapped), w'.
  repeat split; assumption.
Qed.

(** Every entry [rerank] returns has its [score] field equal to its
    [rerankScore]. *)
Lemma rerank_scores_synced env ext self qtext candidates options w out w' :
  rerank env ext self qtext candidates options w = (Ok out, w') ->
  Forall (fun r => score (base r) = rerankScore r) out.
Proof.
  intros Hrun.
  assert (Hfb : forall k, Forall (fun r => score (base r) = rerankScore r)
                            (fallbackToOriginalScores candidates k)).
  { intros k. apply Forall_forall. intros r Hr. apply in_map_iff in Hr.
    destruct Hr as (c & <- & _). reflexivity. }
  destruct (enabled self) eqn:He;
    [destruct (client self) as [cl|] eqn:Hc|].
  - destruct candidates as [|c0 t] eqn:Hcs.
    + unfold rerank, bind, emit, ret in Hrun. rewrite He, Hc in Hrun.
      cbn in Hrun. injection Hrun as <- _. constructor.
    + rewrite <- Hcs in *. assert (Hne : candidates <> []) by (rewrite Hcs; discriminate).
      destruct (scoringCall env cl qtext candidates options) as [response|e] eqn:Hcall.
      * destruct (Forall_Exists_dec (fun r => in_bounds candidates (index r))
                    (fun r => in_bounds_dec candidates (index r)) response)
          as [Hin|Hex].
        -- destruct (mapM_in_bounds _ _ Hin) as (mapped & Hmap & Hall).
           destruct (rerank_succeeds env ext self cl qtext candidates options w
                       response mapped) as (w1 & H1 & _); auto.
           rewrite H1 in Hrun. injection Hrun as <- _.
           eapply Permutation_Forall; [apply sort_perm|].
           clear - Hall. induction Hall as [|r m ? ? (c & _ & ->) _ IH];
             constructor; [reflexivity|exact IH].
        -- destruct (rerank_stray_index env ext self cl qtext candidates options w
                       response) as (w1 & H1 & _); auto.
           rewrite H1 in Hrun. injection Hrun as <- _. apply Hfb.
      * destruct (rerank_call_throws env ext self cl qtext candidates options w e)
          as (w1 & H1 & _); auto.
        rewrite H1 in Hrun. injection Hrun as <- _. apply Hfb.
  - destruct (rerank_disabled env ext self qtext candidates options w (or_intror Hc))
      as (w1 & H1 & _).
    rewrite H1 in Hrun. injection Hrun as <- _. apply Hfb.
  - destruct (rerank_disabled env ext self qtext candidates options w (or_introl He))
      as (w1 & H1 & _).
    rewrite H1 in Hrun. injection Hrun as <- _. apply Hfb.
Qed.

(** C4. Every candidate list that [search] returns is the image of the raw
    answer of the vector index, entry by entry, and each candidate's score
    is [clamp (1 - distance) 0 1] for the raw distance of its entry,
    whatever that distance is; so each score lies between 0 and 1. *)
Theorem search_scores_are_clamped env ext qtext options w results w' :
  search env ext qtext options w = (Ok results, w') ->
  exists store raw,
    storeReady ext w store
    /\ similaritySearchWithScore store qtext (searchK env options)
         (vs_filter options) = Ok raw
    /\ results = map toSearchResult raw
    /\ Forall2 (fun r c => score c = normalizeScore (snd r)
                           /\ (score c == clamp (1 - snd r) 0 1)%Q
                           /\ (0 <= score c <= 1)%Q) raw results.
Proof.
  intros Hrun.
  destruct (search_run env ext qtext options w)
    as [(store & raw & w1 & Hr & Hc & Hs & _) | (e & w1 & Hs)];
    rewrite Hs in Hrun; [|discriminate].
  injection Hrun as <- _. exists store, raw.
  repeat (split; [assumption || reflexivity|]).
  clear. induction raw as [|[doc d] t IH]; cbn [map]; constructor; [|exact IH].
  cbn [toSearchResult score snd].
  split; [reflexivity|]. split; [apply normalizeScore_clamp|apply normalizeScore_range].
Qed.

(** ** Facts on strings and indexed maps *)

Lemma string_app_assoc (a b c : string) : ((a ++ b) ++ c = a ++ (b ++ c))%string.
Proof. induction a as [|x a IH]; cbn; [reflexivity|]. now rewrite IH. Qed.

Lemma mapi_from_length {A B} (f : A -> nat -> B) (l : list A) (k : nat) :
  List.length (JS.mapi_from k f l) = List.length l.
Proof. revert k. induction l as [|x t IH]; intros k; cbn; [reflexivity|]. now rewrite IH. Qed.

Lemma mapi_from_nth {A B} (f : A -> nat -> B) (l : list A) (k i : nat) :
  nth_error (JS.mapi_from k f l) i
  = option_map (fun x => f x (k + i)%nat) (nth_error l i).
Proof.
  revert k i. induction l as [|x t IH]; intros k [|i]; cbn; try reflexivity.
  - now rewrite Nat.add_0_r.
  - rewrite IH. now rewrite Nat.add_succ_r.
Qed.

Lemma mapi_nth {A B} (f : A -> nat -> B) (l : list A) (i : nat) (x : A) :
  nth_error l i = Some x -> nth_error (JS.mapi f l) i = Some (f x i).
Proof. intros H. unfold JS.mapi. now rewrite mapi_from_nth, H. Qed.

Lemma mapi_length {A B} (f : A -> nat -> B) (l : list A) :
  List.length (JS.mapi f l) = List.length l.
Proof. apply mapi_from_length. Qed.

(** ** The synthesizer *)

Lemma sources_nonempty (sources : list RerankResult) :
  sources <> [] -> (List.length sources =? 0)%nat = false.
Proof. destruct sources; [congruence|reflexivity]. Qed.

(** What [generate] does on a non-empty source list, by the answer of the
    chat model. *)
Lemma generate_run ext self qtext sources w :
  sources <> [] ->
  let prompt := formatAnswerTemplate qtext (buildContext sources) in
  (exists r w',
      invoke (chatModel self) SYSTEM_PROMPT prompt = Ok r
      /\ generate ext self qtext sources w
         = (Ok {| gr_answer := content r;
                  gr_sources := JS.mapi toSourceReference sources;
                  gr_modelUsed := modelName (chatModel self);
                  tokensUsed := estimatedTokenUsage r |}, w')
      /\ vectorStore w' = vectorStore w
      /\ appended w w' [Invoke_generate; Net_chat_invoke])
  \/ (exists e w',
         invoke (chatModel self) SYSTEM_PROMPT prompt = Throw e
         /\ generate ext self qtext sources w
            = (Throw (Error ("Response generation failed: " ++ error_message e)), w')).
Proof.
  intros Hne prompt. subst prompt.
  unfold generate, bind, emit, Date_now, try_catch, await, ret, throw, appended.
  cbn [ticks vectorStore trace]. rewrite (sources_nonempty _ Hne).
  destruct (invoke (chatModel self) SYSTEM_PROMPT _) as [r|e] eqn:Hi; cbn.
  - left. exists r. eexists. repeat split. now rewrite <- app_assoc.
  - right. exists e. eexists. split; reflexivity.
Qed.

(** C6. With an empty source list [generate] returns the fixed answer and
    an empty source array, and the only call it records is its own
    invocation: the chat model is not called. *)
Theorem generate_empty_sources_short_circuits ext self qtext w :
  exists w',
    generate ext self qtext [] w
    = (Ok {| gr_answer := NO_PAPERS_ANSWER;
             gr_sources := [];
             gr_modelUsed := modelName (chatModel self);
             tokensUsed := None |}, w')
    /\ appended w w' [Invoke_generate]
    /\ ~ In Net_chat_invoke [Invoke_generate].
Proof.
  eexists. split; [reflexivity|]. split; [reflexivity|].
  intros [H|[]]. discriminate H.
Qed.

Example citation_markers :
  citation 0 = "[1]" /\ citation 1 = "[2]" /\ citation 9 = "[10]".
Proof. repeat split. Qed.

(** C7. For a non-empty source list that [generate] answers: the context
    sent to the chat model is the join of one entry per source; the entry
    at position [i] opens with the marker [[i+1]] and the title of the
    source at position [i]; and the returned references are the sources'
    projections at the same positions. *)
Theorem citations_follow_source_positions ext self qtext sources w resp w' :
  sources <> [] ->
  generate ext self qtext sources w = (Ok resp, w') ->
  (exists r,
      invoke (chatModel self) SYSTEM_PROMPT
        (formatAnswerTemplate qtext (JS.join nl (contextEntries sources))) = Ok r
      /\ gr_answer resp = content r)
  /\ List.length (contextEntries sources) = List.length sources
  /\ List.length (gr_sources resp) = List.length sources
  /\ forall i s,
       nth_error sources i = Some s ->
       (exists rest,
           nth_error (contextEntries sources) i
           = Some ("[" ++ JS.string_of_nat (i + 1) ++ "]" ++ " Title: "
                       ++ title (paper (base s)) ++ rest))
       /\ nth_error (gr_sources resp) i = Some (toSourceReference s i)
       /\ sr_title (toSourceReference s i) = title (paper (base s)).
Proof.
  intros Hne Hrun.
  destruct (generate_run ext self qtext sources w Hne)
    as [(r & w1 & Hi & Hg & _) | (e & w1 & _ & Hg)];
    rewrite Hg in Hrun; [|discriminate].
  injection Hrun as <- <-. cbn [gr_answer gr_sources].
  split; [exists r; split; [exact Hi|reflexivity]|].
  split; [apply mapi_length|]. split; [apply mapi_length|].
  intros i s Hs. split; [|split; [apply mapi_nth; exact Hs|reflexivity]].
  eexists. unfold contextEntries. rewrite (mapi_nth _ _ _ _ Hs).
  unfold contextEntry, citation. cbn [JS.join].
  repeat rewrite string_app_assoc. reflexivity.
Qed.

(** The references [generate] returns are the projections of its sources. *)
Lemma generate_references ext self qtext sources w resp w' :
  generate ext self qtext sources w = (Ok resp, w') ->
  gr_sources resp = JS.mapi toSourceReference sources.
Proof.
  intros Hrun. destruct sources as [|s0 t].
  - unfold generate, bind, emit, Date_now, ret in Hrun. cbn in Hrun.
    injection Hrun as <- <-. reflexivity.
  - destruct (generate_run ext self qtext (s0 :: t) w)
      as [(r & w1 & _ & Hg & _) | (e & w1 & _ & Hg)];
      try discriminate; rewrite Hg in Hrun; [|discriminate].
    injection Hrun as <- <-. reflexivity.
Qed.

Lemma mapi_Forall2 {A B} (P : A -> B -> Prop) (f : A -> nat -> B) (l : list A) :
  (forall x i, P x (f x i)) -> Forall2 P l (JS.mapi f l).
Proof.
  intros HP. unfold JS.mapi. generalize 0%nat.
  induction l as [|x t IH]; intros k; cbn [JS.mapi_from]; constructor; auto.
Qed.

Lemma or_num_nonzero (a b : Q) : ~ (a == 0)%Q -> JS.or_num a b = a.
Proof.
  intros Hnz. unfold JS.or_num. destruct (Qeq_bool a 0) eqn:E; [|reflexivity].
  apply Qeq_bool_iff in E. contradiction.
Qed.

Lemma or_num_zero (a b : Q) : (a == 0)%Q -> JS.or_num a b = b.
Proof. intros Hz. unfold JS.or_num. apply Qeq_bool_iff in Hz. now rewrite Hz. Qed.

Lemma or_num_same (a : Q) : JS.or_num a a = a.
Proof. unfold JS.or_num. destruct (Qeq_bool a 0); reflexivity. Qed.

(** C8, amended. The reference produced for a ranked candidate has
    [relevanceScore] equal to [rerankScore || score]: the candidate's
    [rerankScore] when that is not zero, and also whenever its [score]
    field holds the same value; its [score] field when [rerankScore] is
    zero. *)
Theorem relevanceScore_is_rerankScore_or_score ext self qtext sources w resp w' :
  generate ext self qtext sources w = (Ok resp, w') ->
  Forall2 (fun s ref =>
             (~ (rerankScore s == 0)%Q -> relevanceScore ref = rerankScore s)
             /\ (score (base s) = rerankScore s -> relevanceScore ref = rerankScore s)
             /\ ((rerankScore s == 0)%Q -> relevanceScore ref = score (base s)))
          sources (gr_sources resp).
Proof.
  intros Hrun. rewrite (generate_references _ _ _ _ _ _ _ Hrun).
  apply mapi_Forall2. intros s i.
  unfold toSourceReference. cbn [relevanceScore]. repeat split.
  - apply or_num_nonzero.
  - intros ->. apply or_num_same.
  - apply or_num_zero.
Qed.

(** ** The orchestrator *)

Lemma or_default_twice (x : option Z) (d : Z) :
  JS.or_default (Some (JS.or_default x d)) d = JS.or_default x d.
Proof.
  unfold JS.or_default. destruct x as [v|].
  - destruct (Z.eqb_spec v 0) as [->|Hv].
    + destruct (d =? 0); reflexivity.
    + destruct (Z.eqb_spec v 0); [contradiction|reflexivity].
  - destruct (d =? 0); reflexivity.
Qed.

Lemma storeReady_unique ext w s1 s2 :
  storeReady ext w s1 -> storeReady ext w s2 -> s1 = s2.
Proof.
  unfold storeReady. intros [H1 | [H1 G1]] [H2 | [H2 G2]]; congruence.
Qed.

(** The events of a retrieval that returned a list. *)
Lemma search_events env ext qtext options w results w' :
  search env ext qtext options w = (Ok results, w') ->
  exists evs,
    appended w w' evs
    /\ incl evs [Invoke_search; Net_getVectorStore; Net_similaritySearch].
Proof.
  intros Hrun.
  destruct (search_run env ext qtext options w)
    as [(store & raw & w1 & _ & _ & Hs & _ & _ & evs & Happ & Hincl) | (e & w1 & Hs)];
    rewrite Hs in Hrun; [|discriminate].
  injection Hrun as _ <-. eauto.
Qed.

(** Retrieval on an index that has nothing for the query. *)
Lemma search_empty env ext qtext options w store :
  storeReady ext w store ->
  similaritySearchWithScore store qtext (searchK env options) (vs_filter options) = Ok [] ->
  exists w',
    search env ext qtext options w = (Ok [], w')
    /\ vectorStore w' = Some store.
Proof.
  intros Hready Hcall.
  destruct (search_run env ext qtext options w)
    as [(store' & raw & w1 & Hr & Hc & Hs & Hv & _) | (e & w1 & Hs)].
  - rewrite (storeReady_unique _ _ _ _ Hr Hready) in *.
    rewrite Hcall in Hc. injection Hc as <-. eauto.
  - exfalso. revert Hs.
    unfold search, searchK, bind, try_catch, emit, Date_now, getStore, await, ret, throw.
    cbn [ticks vectorStore trace].
    destruct Hready as [Hv | [Hv Hg]]; rewrite Hv; cbn.
    + fold (searchK env options). rewrite Hcall. cbn. discriminate.
    + rewrite Hg. cbn. fold (searchK env options). rewrite Hcall. cbn. discriminate.
Qed.

(** The early exit of [query], from the answer of the retrieval stage. *)
Lemma query_early_exit env ext self qtext options w w1 :
  search env ext qtext
    {| vs_k := Some (candidateWidth env options); vs_filter := None |}
    (elapse 2 w) = (Ok [], w1) ->
  query env ext self qtext options w
  = (Ok {| answer := NO_PAPERS_ANSWER;
           sources := [];
           qr_metadata :=
             {| retrievalTimeMs := clock ext (ticks w1) - clock ext (S (ticks w));
                rerankTimeMs := None;
                generationTimeMs := 0;
                totalTimeMs := clock ext (S (ticks w1)) - clock ext (ticks w);
                candidateCount := 0;
                finalCount := 0;
                modelUsed := CHAT_MODEL env |} |},
     elapse 2 w1).
Proof.
  intros Hs. unfold elapse, candidateWidth in Hs. cbn [Nat.add] in Hs.
  unfold query, bind, try_catch, Date_now, ret. cbn [ticks vectorStore trace].
  rewrite Hs. reflexivity.
Qed.

(** C5. When the retrieval stage returns an empty list ([query] calls it
    after two readings of the clock), [query] returns the fixed no-results
    answer with no sources and a candidate count of zero, records nothing
    after the retrieval, and among the calls it made there is neither a
    rerank nor a generation. *)
Theorem query_without_candidates_exits_early env ext self qtext options w w1 :
  search env ext qtext
    {| vs_k := Some (candidateWidth env options); vs_filter := None |}
    (elapse 2 w) = (Ok [], w1) ->
  exists resp w' evs,
    query env ext self qtext options w = (Ok resp, w')
    /\ answer resp = NO_PAPERS_ANSWER
    /\ sources resp = []
    /\ candidateCount (qr_metadata resp) = 0
    /\ trace w' = trace w1
    /\ appended w w' evs
    /\ ~ In Invoke_rerank evs /\ ~ In Invoke_generate evs
    /\ ~ In Net_cohere_rerank evs /\ ~ In Net_chat_invoke evs.
Proof.
  intros Hs.
  destruct (search_events _ _ _ _ _ _ _ Hs) as (evs & Happ & Hincl).
  eexists _, (elapse 2 w1), evs.
  split; [apply query_early_exit; exact Hs|].
  repeat (split; [reflexivity|]).
  split; [exact Happ|].
  repeat split; intros Hin; apply Hincl in Hin;
    destruct Hin as [H|[H|[H|[]]]]; discriminate H.
Qed.

(** [query] on an index that has nothing for the query. *)
Lemma query_empty_index env ext self qtext options w store :
  storeReady ext w store ->
  similaritySearchWithScore store qtext (candidateWidth env options) None = Ok [] ->
  exists resp w',
    query env ext self qtext options w = (Ok resp, w')
    /\ sources resp = []
    /\ vectorStore w' = Some store.
Proof.
  intros Hready Hcall.
  destruct (search_empty env ext qtext
              {| vs_k := Some (candidateWidth env options); vs_filter := None |}
              (elapse 2 w) store) as (w1 & Hs & Hv).
  - exact Hready.
  - unfold searchK, candidateWidth. cbn [vs_k vs_filter].
    rewrite or_default_twice. exact Hcall.
  - eexists _, _. split; [apply query_early_exit; exact Hs|].
    split; [reflexivity|exact Hv].
Qed.

(** C10. On a query for which the index returns nothing, both runs of
    [queryWithComparison] have no sources, each average is [0 / 0], the
    returned [avgScoreImprovement] is [NaN] and [sourcesChanged] is
    [false]. *)
Theorem comparison_of_empty_runs_is_nan env ext self qtext w store :
  storeReady ext w store ->
  similaritySearchWithScore store qtext (VECTOR_SEARCH_K env) None = Ok [] ->
  exists cmp w',
    queryWithComparison env ext self qtext w = (Ok cmp, w')
    /\ sources (cmp_withReranking cmp) = []
    /\ sources (cmp_withoutReranking cmp) = []
    /\ avgScore (sources (cmp_withReranking cmp)) = JS.div 0 0
    /\ avgScore (sources (cmp_withoutReranking cmp)) = JS.div 0 0
    /\ JS.div 0 0 = JS.NaN
    /\ avgScoreImprovement (improvement cmp) = JS.NaN
    /\ sourcesChanged (improvement cmp) = false.
Proof.
  intros Hready Hcall.
  destruct (query_empty_index env ext self qtext
              {| opt_k := None; candidatesK := None;
                 withReranking := Some true; temperature := None |} w store
              Hready Hcall) as (r1 & w1 & Hq1 & Hs1 & Hv1).
  destruct (query_empty_index env ext self qtext
              {| opt_k := None; candidatesK := None;
                 withReranking := Some false; temperature := None |} w1 store
              (or_introl Hv1) Hcall) as (r2 & w2 & Hq2 & Hs2 & Hv2).
  eexists _, _. split.
  - unfold queryWithComparison, bind, all2. rewrite Hq1, Hq2. reflexivity.
  - cbn. rewrite Hs1, Hs2. repeat split.
Qed.

Lemma synced_references (finalResults : list RerankResult) :
  Forall (fun r => score (base r) = rerankScore r) finalResults ->
  Forall2 (fun s ref => relevanceScore ref = rerankScore s)
    finalResults (JS.mapi toSourceReference finalResults).
Proof.
  intros Hsync. unfold JS.mapi. generalize 0%nat.
  induction Hsync as [|s t Hs _ IH]; intros k; cbn [JS.mapi_from];
    constructor; [|apply IH].
  unfold toSourceReference. cbn [relevanceScore]. rewrite Hs. apply or_num_same.
Qed.

(** Through the pipeline every reference carries the rerank score of the
    ranked candidate it was made from: [query] only hands [generate]
    candidates whose [score] field equals their [rerankScore]. *)
Lemma query_relevance_is_rerankScore env ext self qtext options w resp w' :
  query env ext self qtext options w = (Ok resp, w') ->
  sources resp = []
  \/ exists finalResults w1 w2 g,
       generate ext (responseGenerator self) qtext finalResults w1 = (Ok g, w2)
       /\ sources resp = gr_sources g
       /\ Forall2 (fun s ref => relevanceScore ref = rerankScore s)
            finalResults (sources resp).
Proof.
  intros Hrun.
  unfold query, bind, try_catch, Date_now, ret, throw in Hrun.
  cbn [ticks vectorStore trace] in Hrun.
  destruct (search env ext qtext _ _) as [[cands|e] w1]; [|discriminate].
  destruct (List.length cands =? 0)%nat.
  - injection Hrun as <- _. left. reflexivity.
  - right.
    destruct (_ && isEnabled (reranker self)).
    + destruct (rerank env ext (reranker self) qtext cands _ _)
        as [[fr|e] w2] eqn:Er; [|discriminate].
      cbn [fst snd] in Hrun.
      destruct (generate ext (responseGenerator self) qtext fr _)
        as [[g|e] w3] eqn:Eg; [|discriminate].
      injection Hrun as <- _. cbn [sources].
      eexists fr, _, w3, g. split; [exact Eg|]. split; [reflexivity|].
      rewrite (generate_references _ _ _ _ _ _ _ Eg).
      apply synced_references. eapply rerank_scores_synced. exact Er.
    + cbn [fst snd] in Hrun.
      destruct (generate ext (responseGenerator self) qtext _ _)
        as [[g|e] w3] eqn:Eg; [|discriminate].
      injection Hrun as <- _. cbn [sources].
      eexists _, _, w3, g. split; [exact Eg|]. split; [reflexivity|].
      rewrite (generate_references _ _ _ _ _ _ _ Eg).
      apply synced_references.
      apply Forall_forall. intros r Hr. apply in_map_iff in Hr.
      destruct Hr as (c & <- & _). reflexivity.
Qed.

(** ** The batch route *)

Lemma fold_left_add_shift {A} (f : A -> Z) (l : list A) (a : Z) :
  fold_left (fun sum r => sum + f r) l a = a + sumZ (map f l).
Proof.
  revert a. induction l as [|x t IH]; intros a; cbn.
  - lia.
  - rewrite IH. unfold sumZ. lia.
Qed.

Lemma sumTotalTimeMs_sumZ (results : list QueryResponse) :
  sumTotalTimeMs results
  = sumZ (map (fun r => totalTimeMs (qr_metadata r)) results).
Proof. unfold sumTotalTimeMs. rewrite fold_left_add_shift. lia. Qed.

Lemma all_map_length {A B} (f : A -> M B) (l : list A) (w : World) out w' :
  all_map f l w = (Ok out, w') -> List.length out = List.length l.
Proof.
  revert w out w'. induction l as [|x t IH]; intros w out w'; cbn.
  - unfold ret. intros H. injection H as <- _. reflexivity.
  - unfold bind, all2, ret.
    destruct (f x w) as [r1 w1]. destruct (all_map f t w1) as [r2 w2] eqn:E.
    destruct r1 as [y|e]; [destruct r2 as [ys|e]|]; try discriminate.
    intros H. injection H as <- _. cbn. f_equal. eapply IH. exact E.
Qed.

(** C9. A batch of more than ten queries is rejected with the validation
    error before anything else happens (the state, and so the call trace,
    is unchanged); for a batch that is answered, there were at most ten
    queries, one response per query, and the reported [totalTimeMs] is the
    sum of the responses' own [totalTimeMs]. *)
Theorem batch_limit_and_total_time env ext body w :
  ((10 < List.length (queries body))%nat ->
   post_query_batch env ext body w
   = (Throw (APIError 400 "Invalid request body"), w))
  /\ (forall resp w',
        post_query_batch env ext body w = (Ok resp, w') ->
        (List.length (queries body) <= 10)%nat
        /\ List.length (br_results resp) = List.length (queries body)
        /\ br_totalTimeMs resp
           = sumZ (map (fun r => totalTimeMs (qr_metadata r)) (br_results resp))).
Proof.
  unfold post_query_batch. split.
  - intros Hlen. unfold batchSchema_success.
    destruct (Nat.leb_spec (List.length (queries body)) 10) as [|_]; [lia|].
    rewrite andb_false_r. reflexivity.
  - intros resp w'.
    destruct (batchSchema_success body) eqn:Hok; cbn [negb]; [|discriminate].
    unfold bind, ret.
    destruct (all_map _ (queries body) w) as [[results|e] w1] eqn:Hall;
      [|discriminate].
    intros H. injection H as <- _. cbn [br_results br_totalTimeMs].
    split; [|split].
    + unfold batchSchema_success in Hok.
      apply andb_prop in Hok. destruct Hok as [Hok _].
      apply andb_prop in Hok. destruct Hok as [_ Hok].
      now apply Nat.leb_le in Hok.
    + eapply all_map_length. exact Hall.
    + apply sumTotalTimeMs_sumZ.
Qed.

(** ** Worked examples *)

Module Witnesses.
Import Examples.

Lemma stray_index_example :
  exists out w',
    rerank (env true) (ext cohereStray)
      (new_CohereReranker (env true) (ext cohereStray))
      "kernels" candidates noOptions w0
    = (Ok out, w')
    /\ trace w' = [Invoke_rerank; Net_cohere_rerank;
                   Rerank_failed (Error "Invalid rerank result index: 7")]
    /\ map base out = candidates.
Proof.
  destruct (rerank_stray_index_raises_then_falls_back
              (env true) (ext cohereStray)
              (new_CohereReranker (env true) (ext cohereStray)) cohereStray
              "kernels" candidates noOptions w0
              [item 0 (9 # 10); item 7 (1 # 2)]
              eq_refl eq_refl)
    as (pre & bad & post & out & w' & Hresp & Hpre & Hbad & Hrun & Happ & _
        & _ & Hbase & _).
  - discriminate.
  - reflexivity.
  - apply Exists_cons_tl, Exists_cons_hd. unfold in_bounds. cbn. lia.
  - exists out, w'. split; [exact Hrun|]. split; [|exact Hbase].
    assert (Hseven : bad = item 7 (1 # 2)).
    { destruct pre as [|p0 [|p1 pre]].
      - injection Hresp as <- _. exfalso. apply Hbad. unfold in_bounds. cbn. lia.
      - injection Hresp as _ <- _. reflexivity.
      - exfalso. injection Hresp as _ _ Hrest.
        destruct pre; discriminate Hrest. }
    rewrite Hseven in Happ. exact Happ.
Defined.

Lemma rate_limited_example :
  exists out w',
    rerank (env true) (ext cohereDown)
      (new_CohereReranker (env true) (ext cohereDown))
      "kernels" candidates {| topK := Some 2; model := None |} w0
    = (Ok out, w')
    /\ Z.of_nat (List.length out) = 2
    /\ map base out = firstn 2 candidates
    /\ Forall (fun r => rerankScore r = originalScore r
                        /\ originalScore r = score (base r)) out.
Proof.
  apply (rerank_degraded_is_fallback_projection
           (env true) (ext cohereDown)
           (new_CohereReranker (env true) (ext cohereDown))
           "kernels" candidates {| topK := Some 2; model := None |} w0).
  - cbn. lia.
  - right. right. exists cohereDown.
    split; [reflexivity|]. split; [reflexivity|]. split; [discriminate|].
    left. eexists. reflexivity.
Defined.

(** The claim of C2 as written fails for a negative size:
    [slice(0, -1)] drops the last candidate. *)
Lemma negative_topK_drops_from_the_end :
  enabled (new_CohereReranker (env false) (ext cohereDown)) = false
  /\ exists out w',
       rerank (env false) (ext cohereDown)
         (new_CohereReranker (env false) (ext cohereDown))
         "kernels" candidates {| topK := Some (-1); model := None |} w0
       = (Ok out, w')
       /\ Z.of_nat (List.length out) = 2
       /\ Z.of_nat (List.length out)
          <> Z.min (-1) (Z.of_nat (List.length candidates)).
Proof.
  split; [reflexivity|].
  eexists _, _. split; [reflexivity|]. split; [reflexivity|]. cbn. lia.
Qed.

Lemma unsorted_answer_example :
  exists mapped out w',
    Forall2 (fun r m => exists c, JS.index candidates (index r) = Some c
                                  /\ m = rankedFrom c r)
      [item 2 (3 # 10); item 0 (9 # 10); item 1 (1 # 2)] mapped
    /\ rerank (env true) (ext cohereUnsorted)
         (new_CohereReranker (env true) (ext cohereUnsorted))
         "kernels" candidates noOptions w0 = (Ok out, w')
    /\ out = JS.sort byRerankScoreDesc mapped
    /\ StronglySorted descByRerankScore out
    /\ Permutation mapped out.
Proof.
  apply (rerank_success_sorted_descending
           (env true) (ext cohereUnsorted)
           (new_CohereReranker (env true) (ext cohereUnsorted)) cohereUnsorted
           "kernels" candidates noOptions w0).
  - reflexivity.
  - reflexivity.
  - discriminate.
  - reflexivity.
  - repeat constructor; cbn; lia.
Defined.

Lemma clamped_scores_example :
  exists store raw,
    storeReady (ext cohereDown) w0 store
    /\ similaritySearchWithScore store "kernels"
         (searchK (env true) {| vs_k := None; vs_filter := None |}) None = Ok raw
    /\ candidates = map toSearchResult raw
    /\ Forall2 (fun r c => score c = normalizeScore (snd r)
                           /\ (score c == clamp (1 - snd r) 0 1)%Q
                           /\ (0 <= score c <= 1)%Q) raw candidates.
Proof.
  eapply (search_scores_are_clamped (env true) (ext cohereDown) "kernels"
            {| vs_k := None; vs_filter := None |} w0 candidates).
  cbv. reflexivity.
Defined.

Lemma void_query_example :
  exists resp w' evs,
    query (env true) (ext cohereUnsorted)
      (new_RAGPipeline (env true) (ext cohereUnsorted)) "void" ragDefaults w0
    = (Ok resp, w')
    /\ answer resp = NO_PAPERS_ANSWER
    /\ sources resp = []
    /\ candidateCount (qr_metadata resp) = 0
    /\ trace w' = [Invoke_search; Net_getVectorStore; Net_similaritySearch]
    /\ appended w0 w' evs
    /\ ~ In Invoke_rerank evs /\ ~ In Invoke_generate evs
    /\ ~ In Net_cohere_rerank evs /\ ~ In Net_chat_invoke evs.
Proof.
  eapply (query_without_candidates_exits_early
            (env true) (ext cohereUnsorted)
            (new_RAGPipeline (env true) (ext cohereUnsorted))
            "void" ragDefaults w0
            {| ticks := 4; vectorStore := Some store;
               trace := [Invoke_search; Net_getVectorStore; Net_similaritySearch] |}).
  reflexivity.
Defined.

Lemma citation_order_example :
  exists resp w',
    generate (ext cohereDown) generator "kernels" ranked w0 = (Ok resp, w')
    /\ (exists rest,
           nth_error (contextEntries ranked) 1
           = Some ("[2] Title: Boosting" ++ rest))
    /\ option_map sr_title (nth_error (gr_sources resp) 1) = Some "Boosting".
Proof.
  destruct (generate (ext cohereDown) generator "kernels" ranked w0)
    as [[resp|e] w'] eqn:Hrun; [|discriminate Hrun].
  exists resp, w'. split; [reflexivity|].
  destruct (citations_follow_source_positions
              (ext cohereDown) generator "kernels" ranked w0 resp w')
    as (_ & _ & _ & Hpos); [discriminate|exact Hrun|].
  destruct (Hpos 1%nat (unranked (toSearchResult (docB, 5 # 2)%Q)) eq_refl)
    as ((rest & Hentry) & Href & _).
  split; [exists rest; exact Hentry|]. rewrite Href. reflexivity.
Defined.

Lemma zero_rerankScore_example :
  exists resp w' ref,
    generate (ext cohereDown) generator "kernels" [zeroRanked] w0 = (Ok resp, w')
    /\ gr_sources resp = [ref]
    /\ relevanceScore ref = score (base zeroRanked).
Proof.
  destruct (generate (ext cohereDown) generator "kernels" [zeroRanked] w0)
    as [[resp|e] w'] eqn:Hrun; [|discriminate Hrun].
  pose proof (relevanceScore_is_rerankScore_or_score
                (ext cohereDown) generator "kernels" [zeroRanked] w0 resp w' Hrun)
    as Hall.
  inversion Hall as [|s ref ss refs (_ & _ & Hzero) Htail Hs Hrefs]; subst.
  inversion Htail; subst.
  exists resp, w', ref. split; [reflexivity|]. split; [symmetry; assumption|].
  apply Hzero. reflexivity.
Defined.

(** The claim of C8 as written fails for a candidate whose rerank score
    is zero and whose [score] field is not. *)
Lemma zero_rerankScore_yields_score :
  exists resp w' ref,
    generate (ext cohereDown) generator "kernels" [zeroRanked] w0 = (Ok resp, w')
    /\ gr_sources resp = [ref]
    /\ rerankScore zeroRanked = 0%Q
    /\ relevanceScore ref = (1 # 2)%Q
    /\ ~ (relevanceScore ref == rerankScore zeroRanked)%Q.
Proof.
  eexists _, _, _. split; [cbv; reflexivity|].
  split; [reflexivity|]. split; [reflexivity|]. split; [reflexivity|].
  cbn. intros H. discriminate H.
Qed.

Lemma batch_example :
  post_query_batch (env false) (ext cohereDown) bigBatch w0
  = (Throw (APIError 400 "Invalid request body"), w0)
  /\ exists resp w',
       post_query_batch (env false) (ext cohereDown) smallBatch w0 = (Ok resp, w')
       /\ List.length (br_results resp) = 2%nat
       /\ br_totalTimeMs resp
          = sumZ (map (fun r => totalTimeMs (qr_metadata r)) (br_results resp)).
Proof.
  split.
  - apply (proj1 (batch_limit_and_total_time
                    (env false) (ext cohereDown) bigBatch w0)).
    cbn. lia.
  - assert (Hrun : exists resp w',
               post_query_batch (env false) (ext cohereDown) smallBatch w0
               = (Ok resp, w')) by (eexists _, _; cbv; reflexivity).
    destruct Hrun as (resp & w' & Hrun).
    exists resp, w'. split; [exact Hrun|].
    destruct (proj2 (batch_limit_and_total_time
                       (env false) (ext cohereDown) smallBatch w0) resp w' Hrun)
      as (_ & Hlen & Hsum).
    split; [exact Hlen|exact Hsum].
Defined.

Lemma empty_comparison_example :
  exists cmp w',
    queryWithComparison (env true) (ext cohereUnsorted)
      (new_RAGPipeline (env true) (ext cohereUnsorted)) "void" w0 = (Ok cmp, w')
    /\ avgScoreImprovement (improvement cmp) = JS.NaN
    /\ sourcesChanged (improvement cmp) = false.
Proof.
  destruct (comparison_of_empty_runs_is_nan (env true) (ext cohereUnsorted)
              (new_RAGPipeline (env true) (ext cohereUnsorted)) "void" w0 store)
    as (cmp & w' & Hrun & _ & _ & _ & _ & _ & Hnan & Hsame).
  - right. split; reflexivity.
  - reflexivity.
  - exists cmp, w'. repeat split; assumption.
Defined.
End Witnesses.

(** * Further properties of the services *)

(** ** Subsequences *)

Lemma Subseq_refl {A} (l : list A) : Subseq l l.
Proof. induction l; constructor; assumption. Qed.

Lemma Subseq_nil_l {A} (l : list A) : Subseq [] l.
Proof. induction l; constructor; assumption. Qed.

Lemma Subseq_trans {A} (l1 l2 l3 : list A) :
  Subseq l1 l2 -> Subseq l2 l3 -> Subseq l1 l3.
Proof.
  intros H12 H23. revert l1 H12.
  induction H23 as [|x l2 l3 H IH|x l2 l3 H IH]; intros l1 H12.
  - exact H12.
  - constructor. apply IH, H12.
  - inversion H12; subst.
    + constructor. apply IH. assumption.
    + apply Subseq_take. apply IH. assumption.
Qed.

Lemma filter_Subseq {A} (f : A -> bool) (l : list A) : Subseq (List.filter f l) l.
Proof.
  induction l as [|x t IH]; cbn; [constructor|].
  destruct (f x); constructor; exact IH.
Qed.

Lemma firstn_Subseq {A} (n : nat) (l : list A) : Subseq (firstn n l) l.
Proof.
  revert n. induction l as [|x t IH]; intros [|n]; cbn.
  - constructor.
  - constructor.
  - apply Subseq_nil_l.
  - apply Subseq_take, IH.
Qed.

Lemma slice0_Subseq {A} (l : list A) (k : Z) : Subseq (JS.slice0 l k) l.
Proof. apply firstn_Subseq. Qed.

Lemma slice0_length_le {A} (l : list A) (k : Z) :
  0 <= k -> Z.of_nat (List.length (JS.slice0 l k)) <= k.
Proof.
  intros Hk. rewrite (slice0_nonneg _ _ Hk), length_firstn. lia.
Qed.

Lemma Subseq_Forall {A} (P : A -> Prop) (l1 l2 : list A) :
  Subseq l1 l2 -> Forall P l2 -> Forall P l1.
Proof.
  induction 1 as [|x l1 l2 H IH|x l1 l2 H IH]; intros HP.
  - constructor.
  - inversion HP; subst. auto.
  - inversion HP; subst. constructor; auto.
Qed.

(** ** The retrieval stage, failure and reuse *)

(** What [search] does in every case of its two external calls. *)
Lemma search_cases env ext qtext options w :
  match vectorStore w with
  | Some store =>
      match similaritySearchWithScore store qtext (searchK env options)
              (vs_filter options) with
      | Ok raw =>
          search env ext qtext options w
          = (Ok (map toSearchResult raw),
             {| ticks := S (S (ticks w)); vectorStore := Some store;
                trace := trace w ++ [Invoke_search; Net_similaritySearch] |})
      | Throw e =>
          search env ext qtext options w
          = (Throw (Error ("Vector search failed: " ++ error_message e)),
             {| ticks := S (ticks w); vectorStore := Some store;
                trace := trace w ++ [Invoke_search; Net_similaritySearch] |})
      end
  | None =>
      match getVectorStore ext with
      | Ok store =>
          match similaritySearchWithScore store qtext (searchK env options)
                  (vs_filter options) with
          | Ok raw =>
              search env ext qtext options w
              = (Ok (map toSearchResult raw),
                 {| ticks := S (S (ticks w)); vectorStore := Some store;
                    trace := trace w ++ [Invoke_search; Net_getVectorStore;
                                         Net_similaritySearch] |})
          | Throw e =>
              search env ext qtext options w
              = (Throw (Error ("Vector search failed: " ++ error_message e)),
                 {| ticks := S (ticks w); vectorStore := Some store;
                    trace := trace w ++ [Invoke_search; Net_getVectorStore;
                                         Net_similaritySearch] |})
          end
      | Throw e =>
          search env ext qtext options w
          = (Throw (Error ("Vector search failed: " ++ error_message e)),
             {| ticks := S (ticks w); vectorStore := None;
                trace := trace w ++ [Invoke_search; Net_getVectorStore] |})
      end
  end.
Proof.
  unfold search, searchK, bind, try_catch, emit, Date_now, getStore, await, ret, throw.
  cbn [ticks vectorStore trace].
  destruct (vectorStore w) as [store|].
  - destruct (similaritySearchWithScore store qtext _ _); cbn;
      rewrite <- app_assoc; reflexivity.
  - destruct (getVectorStore ext) as [store|e]; cbn.
    + destruct (similaritySearchWithScore store qtext _ _); cbn;
        repeat rewrite <- app_assoc; reflexivity.
    + rewrite <- app_assoc. reflexivity.
Qed.

(** X1. Whatever [search] throws is an [Error] whose message is
    ["Vector search failed: "] followed by the message of the cause. When
    the cause is [getVectorStore], the similarity query is not attempted
    and no handle is kept; when the cause is the similarity query, the
    handle stays in place. *)
Theorem search_failure_is_wrapped env ext qtext options w err w' :
  search env ext qtext options w = (Throw err, w') ->
  exists cause,
    err = Error ("Vector search failed: " ++ error_message cause)
    /\ ((vectorStore w = None
         /\ getVectorStore ext = Throw cause
         /\ vectorStore w' = None
         /\ appended w w' [Invoke_search; Net_getVectorStore])
        \/ (exists store,
               storeReady ext w store
               /\ similaritySearchWithScore store qtext (searchK env options)
                    (vs_filter options) = Throw cause
               /\ vectorStore w' = Some store)).
Proof.
  intros Hrun. pose proof (search_cases env ext qtext options w) as Hc.
  unfold storeReady, appended.
  destruct (vectorStore w) as [store|] eqn:Hv.
  - destruct (similaritySearchWithScore store qtext _ _) as [raw|e] eqn:Hs;
      rewrite Hc in Hrun; [discriminate|].
    injection Hrun as <- <-. exists e. split; [reflexivity|].
    right. exists store. cbn. auto.
  - destruct (getVectorStore ext) as [store|e] eqn:Hg.
    + destruct (similaritySearchWithScore store qtext _ _) as [raw|e] eqn:Hs;
        rewrite Hc in Hrun; [discriminate|].
      injection Hrun as <- <-. exists e. split; [reflexivity|].
      right. exists store. cbn. auto.
    + rewrite Hc in Hrun. injection Hrun as <- <-. exists e.
      split; [reflexivity|]. left. cbn. auto.
Qed.

(** X2. After a search that returned, the store handle is kept: every
    later search, whatever its query and options, finishes without
    connecting again (its only calls are the search itself and the
    similarity query) and leaves the handle as it is. *)
Theorem search_reuses_the_store env ext qtext options w results w1 :
  search env ext qtext options w = (Ok results, w1) ->
  forall qtext2 options2,
  exists store outcome w2,
    vectorStore w1 = Some store
    /\ search env ext qtext2 options2 w1 = (outcome, w2)
    /\ appended w1 w2 [Invoke_search; Net_similaritySearch]
    /\ vectorStore w2 = Some store.
Proof.
  intros Hrun qtext2 options2.
  destruct (search_run env ext qtext options w)
    as [(store & raw & w0 & _ & _ & Hs & Hv & _) | (e & w0 & Hs)];
    rewrite Hs in Hrun; [|discriminate].
  injection Hrun as _ <-.
  pose proof (search_cases env ext qtext2 options2 w0) as Hc.
  rewrite Hv in Hc. exists store.
  destruct (similaritySearchWithScore store qtext2 _ _);
    eexists _, _; (split; [exact Hv|]); (split; [exact Hc|]);
    split; reflexivity.
Qed.

(** ** The derived lookups *)

Lemma filter_Forall {A} (f : A -> bool) (l : list A) :
  Forall (fun x => f x = true) (List.filter f l).
Proof. apply Forall_forall. intros x Hx. apply filter_In in Hx. tauto. Qed.

(** X3. [findSimilarPapers] asks the index for [k + 1] candidates under
    the paper's title; what it returns, for [k >= 0], is at most [k] of
    them, in the index's order, none of which has the given title up to
    letter case. A failure of the search is passed on unchanged. *)
Theorem findSimilarPapers_excludes_the_paper
    env ext toLowerCase paperTitle k w :
  let width := match k with Some v => v | None => 5 end in
  let options := {| vs_k := Some (width + 1); vs_filter := None |} in
  (forall out w',
      findSimilarPapers env ext toLowerCase paperTitle k w = (Ok out, w') ->
      exists results,
        search env ext paperTitle options w = (Ok results, w')
        /\ Subseq out results
        /\ Forall (fun r => toLowerCase (title (paper r)) <> toLowerCase paperTitle) out
        /\ (0 <= width ->
            searchK env options = width + 1
            /\ Z.of_nat (List.length out) <= width))
  /\ (forall err w',
        findSimilarPapers env ext toLowerCase paperTitle k w = (Throw err, w') ->
        search env ext paperTitle options w = (Throw err, w')).
Proof.
  intros width options. unfold findSimilarPapers, bind, ret.
  fold width. fold options.
  destruct (search env ext paperTitle options w) as [[results|e] w1]; split;
    intros o w' H; try discriminate.
  - injection H as <- <-. exists results. split; [reflexivity|].
    split; [eapply Subseq_trans; [apply slice0_Subseq|apply filter_Subseq]|].
    split.
    + eapply Subseq_Forall; [apply slice0_Subseq|].
      eapply Forall_impl; [|apply filter_Forall].
      intros r Hr Heq. unfold otherTitle in Hr. rewrite Heq, String.eqb_refl in Hr.
      discriminate.
    + intros Hk. split; [|apply slice0_length_le; exact Hk].
      unfold searchK, options, JS.or_default. cbn [vs_k].
      destruct (Z.eqb_spec (width + 1) 0); [lia|reflexivity].
  - injection H as <- <-. reflexivity.
Qed.

(** X4. [getPapersByYearRange] runs its fixed query at the width [limit]
    (100 when none is given), which [search] replaces by [VECTOR_SEARCH_K]
    when it is 0. Of the hits the index returns at that width it keeps
    exactly those whose year lies in [startYear, endYear], in the index's
    order: nothing when the range is empty. A failure of the search is
    passed on unchanged. *)
Theorem getPapersByYearRange_filters_the_window
    env ext startYear endYear limit w :
  let requested := match limit with Some v => v | None => 100 end in
  let width := if requested =? 0 then VECTOR_SEARCH_K env else requested in
  let options := {| vs_k := Some requested; vs_filter := None |} in
  (forall out w',
      getPapersByYearRange env ext startYear endYear limit w = (Ok out, w') ->
      exists store raw,
        storeReady ext w store
        /\ similaritySearchWithScore store "machine learning research" width None
           = Ok raw
        /\ search env ext "machine learning research" options w
           = (Ok (map toSearchResult raw), w')
        /\ Subseq out (map toSearchResult raw)
        /\ (forall r, In r out <->
                      In r (map toSearchResult raw)
                      /\ startYear <= year (paper r) <= endYear)
        /\ (endYear < startYear -> out = []))
  /\ (forall err w',
        getPapersByYearRange env ext startYear endYear limit w = (Throw err, w') ->
        search env ext "machine learning research" options w = (Throw err, w')).
Proof.
  intros requested width options. unfold getPapersByYearRange, bind, ret.
  fold requested. fold options.
  assert (Hwidth : searchK env options = width) by reflexivity.
  destruct (search env ext "machine learning research" options w)
    as [[results|e] w1] eqn:Hsearch; split; intros o w' H; try discriminate.
  - injection H as <- <-.
    assert (Hraw : exists store raw,
               storeReady ext w store
               /\ similaritySearchWithScore store "machine learning research"
                    width None = Ok raw
               /\ results = map toSearchResult raw).
    { pose proof (search_cases env ext "machine learning research" options w) as Hc.
      rewrite Hwidth in Hc. cbn [vs_filter options] in Hc. unfold storeReady.
      destruct (vectorStore w) as [store|] eqn:Hv.
      - destruct (similaritySearchWithScore store _ width None) as [raw|e] eqn:Hs;
          rewrite Hc in Hsearch; [|discriminate].
        injection Hsearch as <- _. exists store, raw. auto.
      - destruct (getVectorStore ext) as [store|e] eqn:Hg;
          [|rewrite Hc in Hsearch; discriminate].
        destruct (similaritySearchWithScore store _ width None) as [raw|e] eqn:Hs;
          rewrite Hc in Hsearch; [|discriminate].
        injection Hsearch as <- _. exists store, raw. auto. }
    destruct Hraw as (store & raw & Hready & Hs & ->).
    exists store, raw. split; [exact Hready|]. split; [exact Hs|].
    split; [reflexivity|]. split; [apply filter_Subseq|].
    assert (Hin : forall r,
               In r (List.filter (inYearRange startYear endYear)
                       (map toSearchResult raw))
               <-> In r (map toSearchResult raw)
                   /\ startYear <= year (paper r) <= endYear).
    { intros r. rewrite filter_In. unfold inYearRange.
      rewrite andb_true_iff, !Z.leb_le. tauto. }
    split; [exact Hin|].
    intros Hempty.
    destruct (List.filter (inYearRange startYear endYear) (map toSearchResult raw))
      as [|r t] eqn:E; [reflexivity|].
    exfalso. destruct (proj1 (Hin r) (or_introl eq_refl)) as [_ Hr]. lia.
  - injection H as <- <-. reflexivity.
Qed.

(** X5. The health check of the vector search never rejects. It answers
    [true] exactly when a store handle is at hand or can be obtained and
    the similarity query for ["test"] with width 1 returns at least one
    document. *)
Theorem VectorSearchService_healthCheck_verdict env ext w :
  exists verdict w',
    VectorSearchService_healthCheck env ext w = (Ok verdict, w')
    /\ (verdict = true <->
        exists store raw,
          storeReady ext w store
          /\ similaritySearchWithScore store "test" 1 None = Ok raw
          /\ raw <> []).
Proof.
  unfold VectorSearchService_healthCheck, try_catch, bind, ret, getStore, storeReady.
  destruct (vectorStore w) as [store|] eqn:Hv.
  - pose proof (search_cases env ext "test" {| vs_k := Some 1; vs_filter := None |} w)
      as Hc. rewrite Hv in Hc.
    unfold searchK, JS.or_default in Hc. cbn [vs_k vs_filter Z.eqb] in Hc.
    destruct (similaritySearchWithScore store "test" 1 None) as [raw|e] eqn:Hs;
      rewrite Hc; eexists _, _; (split; [reflexivity|]).
    + destruct raw as [|d t]; cbn; split.
      * discriminate.
      * intros (s & r & [Hs1|[Hs1 _]] & Hr & Hne); [|discriminate].
        injection Hs1 as <-. rewrite Hs in Hr. injection Hr as <-. congruence.
      * intros _. exists store, (d :: t). split; [auto|]. split; [exact Hs|discriminate].
      * reflexivity.
    + split; [discriminate|].
      intros (s & r & [Hs1|[Hs1 _]] & Hr & _); [|discriminate].
      injection Hs1 as <-. rewrite Hs in Hr. discriminate.
  - destruct (getVectorStore ext) as [store|e] eqn:Hg.
    + pose proof (search_cases env ext "test" {| vs_k := Some 1; vs_filter := None |}
                    {| ticks := ticks w; vectorStore := Some store;
                       trace := trace w ++ [Net_getVectorStore] |}) as Hc.
      unfold searchK, JS.or_default in Hc.
      cbn [vectorStore ticks trace vs_k vs_filter Z.eqb] in Hc.
      destruct (similaritySearchWithScore store "test" 1 None) as [raw|e] eqn:Hs;
        rewrite Hc; eexists _, _; (split; [reflexivity|]).
      * destruct raw as [|d t]; cbn; split.
        -- discriminate.
        -- intros (s & r & [Hs1|[_ Hs1]] & Hr & Hne); [discriminate|].
           injection Hs1 as <-. rewrite Hs in Hr. injection Hr as <-. congruence.
        -- intros _. exists store, (d :: t). split; [auto|].
           split; [exact Hs|discriminate].
        -- reflexivity.
      * split; [discriminate|].
        intros (s & r & [Hs1|[_ Hs1]] & Hr & _); [discriminate|].
        injection Hs1 as <-. rewrite Hs in Hr. discriminate.
    + eexists _, _. split; [reflexivity|]. split; [discriminate|].
      intros (s & r & [Hs1|[_ Hs1]] & _); discriminate.
Qed.

(** ** The reranker, in every case *)

Lemma rerank_enabled_empty env ext self cl qtext options w :
  enabled self = true -> client self = Some cl ->
  rerank env ext self qtext [] options w
  = (Ok [], {| ticks := ticks w; vectorStore := vectorStore w;
               trace := trace w ++ [Invoke_rerank] |}).
Proof.
  intros He Hc. unfold rerank, bind, emit, ret. rewrite He, Hc. reflexivity.
Qed.

(** The three shapes of what [rerank] returns. *)
Lemma rerank_outcome env ext self qtext candidates options w :
  exists out w',
    rerank env ext self qtext candidates options w = (Ok out, w')
    /\ (out = fallbackToOriginalScores candidates (resolvedTopK env options)
        \/ (candidates = [] /\ out = [])
        \/ exists cl response mapped,
             enabled self = true /\ client self = Some cl /\ candidates <> []
             /\ scoringCall env cl qtext candidates options = Ok response
             /\ Forall2 (fun r m => exists c, JS.index candidates (index r) = Some c
                                              /\ m = rankedFrom c r) response mapped
             /\ out = JS.sort byRerankScoreDesc mapped).
Proof.
  destruct (enabled self) eqn:He;
    [destruct (client self) as [cl|] eqn:Hc|].
  - destruct candidates as [|c0 t] eqn:Hcs.
    + eexists _, _. split; [apply (rerank_enabled_empty env ext self cl); assumption|]. auto.
    + rewrite <- Hcs.
      assert (Hne : candidates <> []) by (rewrite Hcs; discriminate).
      clear Hcs.
      destruct (scoringCall env cl qtext candidates options) as [response|e] eqn:Hcall.
      * destruct (Forall_Exists_dec (fun r => in_bounds candidates (index r))
                    (fun r => in_bounds_dec candidates (index r)) response)
          as [Hin|Hex].
        -- destruct (mapM_in_bounds _ _ Hin) as (mapped & Hmap & Hall).
           destruct (rerank_succeeds env ext self cl qtext candidates options w
                       response mapped) as (w1 & H1 & _); auto.
           eexists _, w1. split; [exact H1|]. right. right.
           exists cl, response, mapped. auto 10.
        -- destruct (rerank_stray_index env ext self cl qtext candidates options w
                       response) as (w1 & H1 & _); auto.
           eexists _, w1. split; [exact H1|]. auto.
      * destruct (rerank_call_throws env ext self cl qtext candidates options w e)
          as (w1 & H1 & _); auto.
        eexists _, w1. split; [exact H1|]. auto.
  - destruct (rerank_disabled env ext self qtext candidates options w (or_intror Hc))
      as (w1 & H1 & _).
    eexists _, w1. split; [exact H1|]. auto.
  - destruct (rerank_disabled env ext self qtext candidates options w (or_introl He))
      as (w1 & H1 & _).
    eexists _, w1. split; [exact H1|]. auto.
Qed.

Lemma index_In {A} (l : list A) (i : Z) (x : A) : JS.index l i = Some x -> In x l.
Proof.
  unfold JS.index. destruct (i <? 0); [discriminate|]. apply nth_error_In.
Qed.

(** X6. [rerank] never rejects: for every reranker, query, candidate list,
    options and state it resolves to a list. *)
Theorem rerank_never_rejects env ext self qtext candidates options w :
  exists out w', rerank env ext self qtext candidates options w = (Ok out, w').
Proof.
  destruct (rerank_outcome env ext self qtext candidates options w)
    as (out & w' & Hrun & _).
  eauto.
Qed.

(** X7. Without a credential, or with no candidates, [rerank] answers at
    once: the scoring service is not called, the clock is not read, and
    with no candidates the answer is the empty list. *)
Theorem rerank_idle_makes_no_call env ext self qtext candidates options w :
  enabled self = false \/ client self = None \/ candidates = [] ->
  exists out w',
    rerank env ext self qtext candidates options w = (Ok out, w')
    /\ appended w w' [Invoke_rerank]
    /\ ticks w' = ticks w
    /\ (candidates = [] -> out = []).
Proof.
  intros H. unfold rerank, bind, emit, ret, appended.
  destruct (enabled self) eqn:He; [destruct (client self) as [cl|] eqn:Hc|].
  - destruct H as [H|[H|H]]; try discriminate. subst candidates.
    cbn. eexists _, _. repeat split.
  - cbn. eexists _, _. split; [reflexivity|]. repeat split.
    intros ->. unfold fallbackToOriginalScores, JS.slice0.
    rewrite firstn_nil. reflexivity.
  - cbn. eexists _, _. split; [reflexivity|]. repeat split.
    intros ->. unfold fallbackToOriginalScores, JS.slice0.
    rewrite firstn_nil. reflexivity.
Qed.

(** X8. Every entry [rerank] returns is built from one of the given
    candidates: its paper, its matched text and its [originalScore] are
    that candidate's paper, text and score; and its [score] field holds
    its [rerankScore]. *)
Theorem rerank_entries_stem_from_candidates
    env ext self qtext candidates options w out w' :
  rerank env ext self qtext candidates options w = (Ok out, w') ->
  Forall (fun r =>
            (exists c, In c candidates
                       /\ paper (base r) = paper c
                       /\ chunkContent (base r) = chunkContent c
                       /\ originalScore r = score c)
            /\ score (base r) = rerankScore r) out.
Proof.
  intros Hrun.
  destruct (rerank_outcome env ext self qtext candidates options w)
    as (out' & w1 & H1 & Hshape).
  rewrite H1 in Hrun. injection Hrun as <- <-.
  destruct Hshape as [-> | [[_ ->] | (cl & response & mapped & _ & _ & _ & _ & Hall & ->)]].
  - apply Forall_forall. intros r Hr. apply in_map_iff in Hr.
    destruct Hr as (c & <- & Hc). split; [|reflexivity].
    exists c. split; [|auto].
    assert (HF : Forall (fun x => In x candidates)
                   (JS.slice0 candidates (resolvedTopK env options))).
    { eapply Subseq_Forall; [apply slice0_Subseq|]. apply Forall_forall. auto. }
    rewrite Forall_forall in HF. apply HF, Hc.
  - constructor.
  - eapply Permutation_Forall; [apply sort_perm|].
    clear - Hall. induction Hall as [|r m ? ? (c & Hc & ->) _ IH];
      constructor; [|exact IH].
    split; [|reflexivity]. exists c. split; [eapply index_In; exact Hc|]. auto.
Qed.

(** X9. When the scoring call succeeds with indices in bounds, [rerank]
    returns one entry per scored item of the answer, carrying exactly the
    scores of the answer: the list is as long as the answer, whatever
    [topK] was. *)
Theorem rerank_success_keeps_every_scored_item
    env ext self cl qtext candidates options w response :
  enabled self = true -> client self = Some cl -> candidates <> [] ->
  scoringCall env cl qtext candidates options = Ok response ->
  Forall (fun r => in_bounds candidates (index r)) response ->
  exists out w',
    rerank env ext self qtext candidates options w = (Ok out, w')
    /\ List.length out = List.length response
    /\ Permutation (map rerankScore out) (map rri_relevanceScore response).
Proof.
  intros He Hc Hne Hcall Hin.
  destruct (mapM_in_bounds _ _ Hin) as (mapped & Hmap & Hall).
  destruct (rerank_succeeds env ext self cl qtext candidates options w response mapped)
    as (w' & Hrun & _); auto.
  exists (JS.sort byRerankScoreDesc mapped), w'. split; [exact Hrun|].
  assert (Hscores : map rerankScore mapped = map rri_relevanceScore response).
  { clear - Hall. induction Hall as [|r m ? ? (c & _ & ->) _ IH]; cbn;
      [reflexivity|]. now rewrite IH. }
  split.
  - rewrite <- (Permutation_length (sort_perm byRerankScoreDesc mapped)).
    rewrite <- (length_map rerankScore mapped), Hscores. apply length_map.
  - rewrite <- Hscores. apply Permutation_map, Permutation_sym, sort_perm.
Qed.

(** X10. The health check of the reranker never rejects. Without a
    credential it answers [false] and calls nothing; with one it answers
    [true] exactly when the one-document test call succeeds. *)
Theorem CohereReranker_healthCheck_verdict (self : CohereReranker) w :
  exists verdict w',
    CohereReranker_healthCheck self w = (Ok verdict, w')
    /\ (verdict = true <->
        enabled self = true
        /\ exists cl response,
             client self = Some cl
             /\ v2_rerank cl "rerank-english-v3.0" "test" ["test document"] 1
                = Ok response)
    /\ (enabled self = false \/ client self = None -> w' = w).
Proof.
  unfold CohereReranker_healthCheck, try_catch, bind, await, ret.
  destruct (enabled self); [destruct (client self) as [cl|]|].
  - destruct (v2_rerank cl _ _ _ _) as [response|e] eqn:Hcall;
      eexists _, _; (split; [reflexivity|]); split.
    + split; [intros _|reflexivity]. split; [reflexivity|]. eauto.
    + intros [H|H]; discriminate.
    + split; [discriminate|].
      intros (_ & cl' & r & Hcl & Hr). injection Hcl as <-. congruence.
    + intros [H|H]; discriminate.
  - eexists _, _. split; [reflexivity|]. split; [|reflexivity].
    split; [discriminate|]. intros (_ & cl & r & H & _). discriminate.
  - eexists _, _. split; [reflexivity|]. split; [|reflexivity].
    split; [discriminate|]. intros (H & _). discriminate.
Qed.

(** ** Prefixes of strings *)

Lemma string_app_length (a b : string) :
  String.length (a ++ b) = (String.length a + String.length b)%nat.
Proof. induction a as [|c a IH]; cbn; [reflexivity|]. now rewrite IH. Qed.

Lemma substring0_split (n : nat) (s : string) :
  exists rest, s = (JS.substring0 n s ++ rest)%string.
Proof.
  unfold JS.substring0. revert n.
  induction s as [|c s IH]; intros [|n]; cbn.
  - exists "". reflexivity.
  - exists "". reflexivity.
  - exists (String c s). reflexivity.
  - destruct (IH n) as [rest Hrest]. exists rest. now rewrite <- Hrest.
Qed.

Lemma substring0_length (n : nat) (s : string) :
  String.length (JS.substring0 n s) = Nat.min n (String.length s).
Proof.
  unfold JS.substring0. revert n.
  induction s as [|c s IH]; intros [|n]; cbn; try reflexivity.
  now rewrite IH.
Qed.

Lemma substring0_twice (m n : nat) (s : string) :
  (m <= n)%nat -> JS.substring0 m (JS.substring0 n s) = JS.substring0 m s.
Proof.
  unfold JS.substring0. revert m n.
  induction s as [|c s IH]; intros [|m] [|n] H; cbn; try reflexivity; try lia.
  rewrite IH; [reflexivity|lia].
Qed.

Lemma substring0_twice_any (m n : nat) (s : string) :
  JS.substring0 m (JS.substring0 n s) = JS.substring0 (Nat.min m n) s.
Proof.
  unfold JS.substring0. revert m n.
  induction s as [|c s IH]; intros [|m] [|n]; cbn; try reflexivity.
  now rewrite IH.
Qed.

Lemma substring0_snoc (i : nat) (c : ascii) (s : string) :
  String.get i s = Some c ->
  JS.substring0 (S i) s = (JS.substring0 i s ++ String c "")%string.
Proof.
  unfold JS.substring0. revert i.
  induction s as [|d s IH]; intros [|i] H; cbn in *; try discriminate.
  - injection H as ->. destruct s; reflexivity.
  - rewrite <- (IH i H). reflexivity.
Qed.

(** [lastIndexOf] answers [-1] when the character does not occur, and
    otherwise the position of its last occurrence. *)
Lemma lastIndexOf_from_spec (c : ascii) (s : string) (pos found : Z) :
  let i := JS.lastIndexOf_from pos c s found in
  (i = found /\ forall j, String.get j s <> Some c)
  \/ (pos <= i < pos + Z.of_nat (String.length s)
      /\ String.get (Z.to_nat (i - pos)) s = Some c
      /\ forall j, (Z.to_nat (i - pos) < j)%nat -> String.get j s <> Some c).
Proof.
  revert pos found. induction s as [|d s IH]; intros pos found; cbn.
  - left. split; [reflexivity|]. intros j. destruct j; discriminate.
  - destruct (IH (pos + 1) (if Ascii.eqb c d then pos else found))
      as [[H Hnone]|(Hr & Hg & Hlast)].
    + rewrite H. destruct (Ascii.eqb_spec c d) as [->|Hcd].
      * right. split; [lia|]. rewrite Z.sub_diag. split; [reflexivity|].
        intros [|j] Hj; [lia|]. apply Hnone.
      * left. split; [reflexivity|].
        intros [|j]; [cbn; congruence|apply Hnone].
    + right. split; [lia|].
      replace (Z.to_nat (JS.lastIndexOf_from (pos + 1) c s
                           (if Ascii.eqb c d then pos else found) - pos))
        with (S (Z.to_nat (JS.lastIndexOf_from (pos + 1) c s
                             (if Ascii.eqb c d then pos else found) - (pos + 1))))
        by lia.
      split; [exact Hg|].
      intros [|j] Hj; [lia|]. apply Hlast. lia.
Qed.

Lemma lastIndexOf_spec (c : ascii) (s : string) :
  (JS.lastIndexOf c s = -1 /\ forall j, String.get j s <> Some c)
  \/ (0 <= JS.lastIndexOf c s < Z.of_nat (String.length s)
      /\ String.get (Z.to_nat (JS.lastIndexOf c s)) s = Some c
      /\ forall j, (Z.to_nat (JS.lastIndexOf c s) < j)%nat ->
                   String.get j s <> Some c).
Proof.
  unfold JS.lastIndexOf.
  destruct (lastIndexOf_from_spec c s 0 (-1)) as [H|(Hr & Hg & Hlast)];
    [left; exact H|].
  right. rewrite Z.sub_0_r in Hg, Hlast. split; [lia|]. split; assumption.
Qed.

(** The position of the last period is the one [lastIndexOf] answers. *)
Lemma lastPeriodAt_lastIndexOf (s : string) (p : nat) :
  lastPeriodAt s p -> JS.lastIndexOf "." s = Z.of_nat p.
Proof.
  intros [Hp Hafter].
  destruct (lastIndexOf_spec "." s) as [[_ Hnone]|(Hr & Hg & Hlast)].
  - exfalso. exact (Hnone p Hp).
  - destruct (Nat.lt_trichotomy (Z.to_nat (JS.lastIndexOf "." s)) p) as [Hlt|[Heq|Hgt]].
    + exfalso. exact (Hlast p Hlt Hp).
    + lia.
    + exfalso. exact (Hafter _ Hgt Hg).
Qed.

Lemma lastIndexOf_lastPeriodAt (s : string) :
  0 <= JS.lastIndexOf "." s ->
  lastPeriodAt s (Z.to_nat (JS.lastIndexOf "." s)).
Proof.
  intros Hpos.
  destruct (lastIndexOf_spec "." s) as [[H _]|(_ & Hg & Hlast)]; [lia|].
  split; assumption.
Qed.

(** The first [n] characters of a text are [substring(0, n)]. *)
Lemma prefix_is_substring0 (s head rest : string) :
  s = (head ++ rest)%string -> JS.substring0 (String.length head) s = head.
Proof.
  intros ->. unfold JS.substring0.
  induction head as [|c head IH]; cbn.
  - destruct rest; reflexivity.
  - now rewrite IH.
Qed.

Lemma noPeriod_lastIndexOf (s : string) :
  noPeriod s -> JS.lastIndexOf "." s = -1.
Proof.
  intros Hnone.
  destruct (lastIndexOf_spec "." s) as [[H _]|(_ & Hg & _)]; [exact H|].
  exfalso. exact (Hnone _ Hg).
Qed.

(** ** Doubles *)

(** The literal [0.7] is the correctly rounded quotient of 7 by 10. *)
Lemma d0_7_is_seven_tenths :
  JS.d0_7 = SFdiv 53 1024 (JS.double_of_Z 7) (JS.double_of_Z 10).
Proof. vm_compute. reflexivity. Qed.

(** Rounding keeps the sign it is given. *)
Lemma binary_round_aux_sign (sx : bool) (mx ex : Z) (lx : location) :
  let r := binary_round_aux 53 1024 sx mx ex lx in
  r = S754_zero sx \/ r = S754_infinity sx \/ r = S754_nan
  \/ exists m e, r = S754_finite sx m e.
Proof.
  unfold binary_round_aux.
  destruct (shr_fexp 53 1024 mx ex lx) as [mrs' e'].
  destruct (shr_fexp 53 1024 _ e' loc_Exact) as [mrs'' e''].
  destruct (shr_m mrs'') as [|m|m]; cbn zeta; auto.
  destruct (e'' <=? 1024 - 53); eauto 6.
Qed.

(** A length times [0.7] is not negative, so [-1] never exceeds it. *)
Lemma threshold_sign (n : nat) :
  let t := JS.mul (JS.double_of_Z (Z.of_nat n)) JS.d0_7 in
  t = S754_zero false \/ t = S754_infinity false \/ t = S754_nan
  \/ exists m e, t = S754_finite false m e.
Proof.
  unfold JS.mul, JS.double_of_Z, JS.d0_7, binary_normalize.
  destruct (Z.of_nat n) as [|m|m] eqn:Hn; [cbn; auto| |lia].
  unfold binary_round.
  destruct (shl_align m 0 _) as [mz ez].
  destruct (binary_round_aux_sign false (Z.pos mz) ez loc_Exact)
    as [H|[H|[H|(m' & e' & H)]]]; cbv zeta in H; rewrite H; cbn [SFmul xorb]; auto.
  apply (binary_round_aux_sign false).
Qed.

Lemma minus_one_not_beyond (n : nat) :
  JS.gt (JS.double_of_Z (-1)) (JS.mul (JS.double_of_Z (Z.of_nat n)) JS.d0_7) = false.
Proof.
  change (JS.double_of_Z (-1)) with (S754_finite true 4503599627370496 (-52)).
  destruct (threshold_sign n) as [H|[H|[H|(m & e & H)]]]; cbv zeta in H;
    rewrite H; reflexivity.
Qed.

(** At the default [maxLength] the product is 140 exactly. *)
Lemma beyondThreshold_200 (p : nat) :
  (p < 200)%nat -> beyondThreshold 200 p = (140 <? p)%nat.
Proof.
  intros Hp.
  assert (Hall : forallb (fun q => Bool.eqb (beyondThreshold 200 q) (140 <? q)%nat)
                   (seq 0 200) = true) by (vm_compute; reflexivity).
  rewrite forallb_forall in Hall.
  apply Bool.eqb_prop, Hall, in_seq. lia.
Qed.

(** ** The excerpt of a source *)

(** The excerpt, with lengths and positions in bytes. *)
Lemma extractExcerpt_bytes (content : string) (maxLength : nat) :
  ((String.length content <= maxLength)%nat ->
   extractExcerpt content maxLength = content)
  /\ ((maxLength < String.length content)%nat ->
      exists head rest,
        content = (head ++ rest)%string
        /\ String.length head = maxLength
        /\ (forall p, lastPeriodAt head p -> beyondThreshold maxLength p = true ->
              exists tail,
                head = (extractExcerpt content maxLength ++ tail)%string
                /\ String.length (extractExcerpt content maxLength) = S p)
        /\ (forall p, lastPeriodAt head p -> beyondThreshold maxLength p = false ->
              extractExcerpt content maxLength = (head ++ "...")%string)
        /\ (noPeriod head ->
              extractExcerpt content maxLength = (head ++ "...")%string))
  /\ (String.length (extractExcerpt content maxLength) <= maxLength + 3)%nat
  /\ (maxLength = 200%nat ->
      forall p, (p < 200)%nat -> beyondThreshold maxLength p = (140 <? p)%nat).
Proof.
  unfold extractExcerpt.
  destruct (Nat.leb_spec (String.length content) maxLength) as [Hshort|Hlong].
  - split; [reflexivity|]. split; [lia|]. split; [lia|].
    intros ->. apply beyondThreshold_200.
  - set (excerpt := JS.substring0 maxLength content).
    assert (Hlen : String.length excerpt = maxLength).
    { unfold excerpt. rewrite substring0_length. lia. }
    split; [lia|]. split; [|split].
    + intros _. destruct (substring0_split maxLength content) as [rest Hrest].
      exists excerpt, rest. split; [exact Hrest|]. split; [exact Hlen|].
      split; [|split].
      * intros p Hlast Hbeyond.
        rewrite (lastPeriodAt_lastIndexOf _ _ Hlast).
        unfold beyondThreshold in Hbeyond. rewrite Hbeyond.
        replace (Z.to_nat (Z.of_nat p + 1)) with (S p) by lia.
        destruct (substring0_split (S p) excerpt) as [tail Htail].
        exists tail. split; [exact Htail|].
        rewrite substring0_length.
        assert (p < String.length excerpt)%nat.
        { destruct Hlast as [Hp _]. clear -Hp. revert p Hp.
          induction excerpt as [|c t IH]; intros [|p] Hp; cbn in *;
            try discriminate; [lia|].
          apply IH in Hp. lia. }
        lia.
      * intros p Hlast Hbeyond.
        rewrite (lastPeriodAt_lastIndexOf _ _ Hlast).
        unfold beyondThreshold in Hbeyond. rewrite Hbeyond. reflexivity.
      * intros Hnone. rewrite (noPeriod_lastIndexOf _ Hnone).
        rewrite minus_one_not_beyond. reflexivity.
    + destruct (JS.gt _ _).
      * rewrite substring0_length. lia.
      * rewrite string_app_length, Hlen. cbn. lia.
    + intros ->. apply beyondThreshold_200.
Qed.

(** For ASCII text the code's [length] is the number of bytes. *)
Lemma isAscii_length (s : string) :
  JS.isAscii s = true -> JS.length s = String.length s.
Proof.
  induction s as [|c s IH]; cbn [JS.isAscii JS.length String.length];
    [reflexivity|].
  intros H. apply andb_prop in H. destruct H as [Hc Hs].
  unfold JS.units. rewrite Hc, (IH Hs). reflexivity.
Qed.

Lemma isAscii_app (a b : string) :
  JS.isAscii (a ++ b) = JS.isAscii a && JS.isAscii b.
Proof.
  induction a as [|c a IH]; cbn [JS.isAscii append]; [reflexivity|].
  rewrite IH. apply andb_assoc.
Qed.

(** The first [n] characters of an ASCII text. *)
Lemma ascii_head (s head rest : string) (n : nat) :
  JS.isAscii s = true -> s = (head ++ rest)%string -> JS.length head = n ->
  head = JS.substring0 n s.
Proof.
  intros Hascii Hsplit Hlen.
  assert (Hh : JS.isAscii head = true).
  { rewrite Hsplit, isAscii_app in Hascii. apply andb_prop in Hascii. tauto. }
  rewrite (isAscii_length _ Hh) in Hlen. subst n.
  symmetry. apply (prefix_is_substring0 _ _ rest). exact Hsplit.
Qed.

(** X11. For ASCII text, [extractExcerpt] returns a text of at most
    [maxLength] characters unchanged. Of a longer text it looks at the
    first [maxLength] characters: when their last period stands at a
    position that exceeds the double [maxLength * 0.7], the excerpt is the
    text up to and including that period; when it does not, or when there
    is no period, the excerpt is these characters followed by ["..."]. It
    never has more than [maxLength + 3] characters. At the default
    [maxLength] of 200 a position exceeds the product when it is above
    140. *)
Theorem extractExcerpt_shape (content : string) (maxLength : nat) :
  JS.isAscii content = true ->
  ((JS.length content <= maxLength)%nat ->
   extractExcerpt content maxLength = content)
  /\ ((maxLength < JS.length content)%nat ->
      exists head rest,
        content = (head ++ rest)%string
        /\ JS.length head = maxLength
        /\ (forall p, lastPeriodAt head p -> beyondThreshold maxLength p = true ->
              exists tail,
                head = (extractExcerpt content maxLength ++ tail)%string
                /\ JS.length (extractExcerpt content maxLength) = S p)
        /\ (forall p, lastPeriodAt head p -> beyondThreshold maxLength p = false ->
              extractExcerpt content maxLength = (head ++ "...")%string)
        /\ (noPeriod head ->
              extractExcerpt content maxLength = (head ++ "...")%string))
  /\ (JS.length (extractExcerpt content maxLength) <= maxLength + 3)%nat
  /\ (maxLength = 200%nat ->
      forall p, (p < 200)%nat -> beyondThreshold maxLength p = (140 <? p)%nat).
Proof.
  intros Hascii.
  destruct (extractExcerpt_bytes content maxLength) as (Hshort & Hlong & Hmax & Hdef).
  assert (Hout : JS.isAscii (extractExcerpt content maxLength) = true).
  { unfold extractExcerpt.
    destruct (String.length content <=? maxLength)%nat; [exact Hascii|].
    assert (Hpre : forall n, JS.isAscii (JS.substring0 n content) = true).
    { intros n. destruct (substring0_split n content) as [rest Hrest].
      rewrite Hrest, isAscii_app in Hascii. apply andb_prop in Hascii. tauto. }
    destruct (JS.gt _ _).
    - rewrite substring0_twice_any. apply Hpre.
    - rewrite isAscii_app, Hpre. reflexivity. }
  rewrite (isAscii_length _ Hascii), (isAscii_length _ Hout).
  split; [exact Hshort|]. split; [|split; [exact Hmax|exact Hdef]].
  intros Hlen. destruct (Hlong Hlen) as (head & rest & Hsplit & Hhead & Hrest).
  exists head, rest. split; [exact Hsplit|].
  assert (Hh : JS.isAscii head = true).
  { rewrite Hsplit, isAscii_app in Hascii. apply andb_prop in Hascii. tauto. }
  rewrite (isAscii_length _ Hh). split; [exact Hhead|exact Hrest].
Qed.

(** ** Failure of the synthesizer *)

(** X12. [generate] rejects only for a non-empty source list whose chat
    call failed; what it throws is an [Error] whose message is
    ["Response generation failed: "] followed by the message of the chat
    call's error, and the chat model was called once. *)
Theorem generate_failure_is_wrapped ext self qtext sources w err w' :
  generate ext self qtext sources w = (Throw err, w') ->
  sources <> []
  /\ exists cause,
       invoke (chatModel self) SYSTEM_PROMPT
         (formatAnswerTemplate qtext (buildContext sources)) = Throw cause
       /\ err = Error ("Response generation failed: " ++ error_message cause)
       /\ appended w w' [Invoke_generate; Net_chat_invoke].
Proof.
  unfold generate, bind, emit, Date_now, try_catch, await, ret, throw, appended.
  cbn [ticks vectorStore trace].
  destruct sources as [|s t]; cbn [List.length Nat.eqb]; [discriminate|].
  destruct (invoke (chatModel self) SYSTEM_PROMPT _) as [r|cause] eqn:Hi;
    cbn; intros H; [discriminate|].
  injection H as <- <-. split; [discriminate|].
  exists cause. split; [reflexivity|]. split; [reflexivity|].
  cbn. now rewrite <- app_assoc.
Qed.

(** ** The orchestrator, in every case *)

(** The four ways [query] can go. *)
Lemma query_cases env ext self qtext options w :
  (exists e w1,
      retrieval env ext qtext options w = (Throw e, w1)
      /\ query env ext self qtext options w
         = (Throw (Error ("RAG pipeline failed: " ++ error_message e)), w1))
  \/ (exists w1,
         retrieval env ext qtext options w = (Ok [], w1)
         /\ query env ext self qtext options w
            = (Ok (emptyResponse env ext w w1), elapse 2 w1))
  \/ (exists candidates w1 finalResults rerankTime s2,
         retrieval env ext qtext options w = (Ok candidates, w1)
         /\ candidates <> []
         /\ stageTwo env ext self qtext options candidates w1
              finalResults rerankTime s2
         /\ ((exists g w3,
                 generate ext (responseGenerator self) qtext finalResults
                   (elapse 1 s2) = (Ok g, w3)
                 /\ query env ext self qtext options w
                    = (Ok (fullResponse ext w w1 s2 w3 candidates finalResults
                             rerankTime g), elapse 2 w3))
             \/ (exists e w3,
                    generate ext (responseGenerator self) qtext finalResults
                      (elapse 1 s2) = (Throw e, w3)
                    /\ query env ext self qtext options w
                       = (Throw (Error ("RAG pipeline failed: " ++ error_message e)),
                          w3)))).
Proof.
  unfold retrieval, stageTwo, rerankRuns, finalWidth, candidateWidth, elapse.
  cbn [Nat.add].
  unfold query, bind, try_catch, Date_now, ret, throw.
  cbn [ticks vectorStore trace].
  destruct (search env ext qtext _ _) as [[cands|e] w1]; [|left; eauto].
  right. destruct cands as [|c0 t] eqn:Hc.
  - left. exists w1. split; reflexivity.
  - right. rewrite <- Hc.
    assert (Hne : cands <> []) by (rewrite Hc; discriminate).
    assert (Hlen : (List.length cands =? 0)%nat = false)
      by (rewrite Hc; reflexivity).
    rewrite Hlen. clear Hc.
    destruct (_ && isEnabled (reranker self)) eqn:Hruns.
    + cbv beta iota. cbn [ticks vectorStore trace].
      destruct (rerank_outcome env ext (reranker self) qtext cands
                  {| topK := Some (JS.or_default (opt_k options) (RERANK_TOP_K env));
                     model := None |}
                  {| ticks := S (S (ticks w1)); vectorStore := vectorStore w1;
                     trace := trace w1 |}) as (fr & w2 & Hr & _).
      rewrite Hr. cbn [fst snd ticks vectorStore trace].
      destruct (generate ext (responseGenerator self) qtext fr _)
        as [[g|e] w3] eqn:Hg.
      * exists cands, w1, fr. eexists _, _. split; [reflexivity|].
        split; [exact Hne|]. split.
        -- right. split; [reflexivity|]. exists w2. cbn [ticks].
           split; [exact Hr|]. split; reflexivity.
        -- left. exists g, w3. cbn [ticks vectorStore trace]. split; [exact Hg|].
           reflexivity.
      * exists cands, w1, fr. eexists _, _. split; [reflexivity|].
        split; [exact Hne|]. split.
        -- right. split; [reflexivity|]. exists w2. cbn [ticks].
           split; [exact Hr|]. split; reflexivity.
        -- right. exists e, w3. cbn [ticks vectorStore trace]. split; [exact Hg|].
           reflexivity.
    + cbv beta iota. cbn [fst snd ticks vectorStore trace].
      destruct (generate ext (responseGenerator self) qtext _ _)
        as [[g|e] w3] eqn:Hg.
      * exists cands, w1. eexists _, _, _. split; [reflexivity|].
        split; [exact Hne|]. split.
        -- left. repeat split.
        -- left. exists g, w3. cbn [ticks vectorStore trace]. split; [exact Hg|].
           reflexivity.
      * exists cands, w1. eexists _, _, _. split; [reflexivity|].
        split; [exact Hne|]. split.
        -- left. repeat split.
        -- right. exists e, w3. cbn [ticks vectorStore trace]. split; [exact Hg|].
           reflexivity.
Qed.

Lemma slice0_nil {A} (k : Z) : JS.slice0 (@nil A) k = [].
Proof. unfold JS.slice0. apply firstn_nil. Qed.

Lemma elapse_trace n w : trace (elapse n w) = trace w.
Proof. reflexivity. Qed.

(** The calls of a [generate] that returned. *)
Lemma generate_events ext self qtext sources w g w' :
  generate ext self qtext sources w = (Ok g, w') ->
  exists evs, appended w w' evs /\ incl evs [Invoke_generate; Net_chat_invoke].
Proof.
  intros Hrun. destruct sources as [|s t].
  - unfold generate, bind, emit, Date_now, ret in Hrun. cbn in Hrun.
    injection Hrun as _ <-. exists [Invoke_generate]. split; [reflexivity|].
    intros x [<-|[]]. cbn. auto.
  - destruct (generate_run ext self qtext (s :: t) w)
      as [(r & w1 & _ & Hg & _ & Happ) | (e & w1 & _ & Hg)];
      try discriminate; rewrite Hg in Hrun; [|discriminate].
    injection Hrun as _ <-. exists [Invoke_generate; Net_chat_invoke].
    split; [exact Happ|apply incl_refl].
Qed.

(** The reference made from a candidate that was not reranked. *)
Lemma unranked_reference (c : SearchResult) (i : nat) :
  relevanceScore (toSourceReference (unranked c) i) = score c
  /\ sr_title (toSourceReference (unranked c) i) = title (paper c)
  /\ sr_authors (toSourceReference (unranked c) i) = authors (paper c)
  /\ sr_year (toSourceReference (unranked c) i) = year (paper c)
  /\ sr_link (toSourceReference (unranked c) i) = link (paper c).
Proof. cbn. split; [apply or_num_same|]. auto. Qed.

(** A [query] that skips the rerank stage, seen from its response. *)
Lemma query_unreranked env ext self qtext options w resp w' candidates w1 :
  query env ext self qtext options w = (Ok resp, w') ->
  rerankRuns self options = false ->
  retrieval env ext qtext options w = (Ok candidates, w1) ->
  let top := JS.slice0 candidates (finalWidth env options) in
  sources resp = JS.mapi toSourceReference (map unranked top)
  /\ rerankTimeMs (qr_metadata resp) = None
  /\ finalCount (qr_metadata resp) = Z.of_nat (List.length top)
  /\ candidateCount (qr_metadata resp) = Z.of_nat (List.length candidates)
  /\ exists evs,
       appended w1 w' evs /\ incl evs [Invoke_generate; Net_chat_invoke].
Proof.
  intros Hrun Hoff Hret top.
  destruct (query_cases env ext self qtext options w)
    as [(e & w0 & Hs & Hq)
       | [(w0 & Hs & Hq)
         | (cands & w0 & fr & rt & s2 & Hs & Hne & Hst & Hg)]];
    rewrite Hs in Hret.
  - discriminate.
  - injection Hret as <- <-. rewrite Hq in Hrun. injection Hrun as <- <-.
    subst top. rewrite slice0_nil. cbn.
    repeat split. exists []. split; [unfold appended; now rewrite app_nil_r|].
    apply incl_nil_l.
  - injection Hret as <- <-.
    destruct Hst as [(_ & -> & -> & ->) | (Hon & _)]; [|congruence].
    destruct Hg as [(g & w3 & Hg & Hq) | (e & w3 & _ & Hq)];
      rewrite Hq in Hrun; [|discriminate].
    injection Hrun as <- <-. cbn [sources qr_metadata fullResponse rerankTimeMs
                                   finalCount candidateCount].
    rewrite (generate_references _ _ _ _ _ _ _ Hg).
    split; [reflexivity|]. split; [reflexivity|].
    split; [now rewrite length_map|]. split; [reflexivity|].
    destruct (generate_events _ _ _ _ _ _ _ Hg) as (evs & Happ & Hincl).
    exists evs. split; [exact Happ|exact Hincl].
Qed.

(** ** Properties of [query] *)

(** X13. When the rerank stage is skipped (reranking switched off, or no
    credential) and the requested size is not negative, a [query] that
    answers returns the first [min finalK n] of the [n] retrieved
    candidates, in retrieval order, each with [relevanceScore] equal to
    its retrieval score; it reports no rerank time, these counts, and it
    never invokes the reranker or the scoring service. *)
Theorem query_without_reranking_keeps_retrieval_order
    env ext self qtext options w resp w' candidates w1 :
  query env ext self qtext options w = (Ok resp, w') ->
  rerankRuns self options = false ->
  0 <= finalWidth env options ->
  retrieval env ext qtext options w = (Ok candidates, w1) ->
  let n := Z.min (finalWidth env options) (Z.of_nat (List.length candidates)) in
  Forall2 (fun c ref => relevanceScore ref = score c
                        /\ sr_title ref = title (paper c)
                        /\ sr_authors ref = authors (paper c)
                        /\ sr_year ref = year (paper c))
    (firstn (Z.to_nat n) candidates) (sources resp)
  /\ rerankTimeMs (qr_metadata resp) = None
  /\ finalCount (qr_metadata resp) = n
  /\ candidateCount (qr_metadata resp) = Z.of_nat (List.length candidates)
  /\ exists evs,
       appended w w' evs
       /\ ~ In Invoke_rerank evs /\ ~ In Net_cohere_rerank evs.
Proof.
  intros Hrun Hoff Hk Hret n.
  destruct (query_unreranked _ _ _ _ _ _ _ _ _ _ Hrun Hoff Hret)
    as (Hsrc & Hrt & Hfc & Hcc & evs2 & Happ2 & Hincl2).
  rewrite (slice0_nonneg _ _ Hk) in Hsrc, Hfc. fold n in Hsrc, Hfc.
  split; [|split; [exact Hrt|split; [|split; [exact Hcc|]]]].
  - rewrite Hsrc. clear. unfold JS.mapi. generalize 0%nat.
    induction (firstn (Z.to_nat n) candidates) as [|c t IH]; intros k;
      cbn [map JS.mapi_from]; constructor; [|apply IH].
    destruct (unranked_reference c k) as (H1 & H2 & H3 & H4 & _). auto.
  - rewrite Hfc, length_firstn. lia.
  - destruct (search_events _ _ _ _ _ _ _ Hret) as (evs1 & Happ1 & Hincl1).
    exists (evs1 ++ evs2)%list. unfold appended in *. rewrite elapse_trace in Happ1.
    split; [rewrite Happ2, Happ1; now rewrite app_assoc|].
    split; intros Hin; apply in_app_or in Hin; destruct Hin as [Hin|Hin];
      try (apply Hincl1 in Hin; cbn in Hin; intuition discriminate);
      try (apply Hincl2 in Hin; cbn in Hin; intuition discriminate).
Qed.





(** What [search] throws, and the calls it made. *)
Lemma search_throws env ext qtext options w err w' :
  search env ext qtext options w = (Throw err, w') ->
  exists cause,
    err = Error ("Vector search failed: " ++ error_message cause)
    /\ exists evs,
         appended w w' evs
         /\ incl evs [Invoke_search; Net_getVectorStore; Net_similaritySearch].
Proof.
  intros Hrun. pose proof (search_cases env ext qtext options w) as Hc.
  unfold appended.
  destruct (vectorStore w) as [store|].
  - destruct (similaritySearchWithScore store qtext _ _) as [raw|e];
      rewrite Hc in Hrun; [discriminate|].
    injection Hrun as <- <-. exists e. split; [reflexivity|].
    eexists. split; [reflexivity|]. intros x [<-|[<-|[]]]; cbn; auto.
  - destruct (getVectorStore ext) as [store|e].
    + destruct (similaritySearchWithScore store qtext _ _) as [raw|e];
        rewrite Hc in Hrun; [discriminate|].
      injection Hrun as <- <-. exists e. split; [reflexivity|].
      eexists. split; [reflexivity|]. apply incl_refl.
    + rewrite Hc in Hrun. injection Hrun as <- <-. exists e.
      split; [reflexivity|]. eexists. split; [reflexivity|].
      intros x [<-|[<-|[]]]; cbn; auto.
Qed.

(** X15. [query] rejects in two ways only. Either the retrieval failed:
    the message is ["RAG pipeline failed: Vector search failed: "] and the
    cause's message, and neither the reranker nor the synthesizer was
    invoked. Or the chat call failed: the message is
    ["RAG pipeline failed: Response generation failed: "] and the cause's
    message. The rerank stage is never the reason. *)
Theorem query_failure_is_wrapped env ext self qtext options w err w' :
  query env ext self qtext options w = (Throw err, w') ->
  (exists cause evs,
      err = Error ("RAG pipeline failed: Vector search failed: "
                     ++ error_message cause)
      /\ appended w w' evs
      /\ incl evs [Invoke_search; Net_getVectorStore; Net_similaritySearch])
  \/ (exists cause finalResults,
         err = Error ("RAG pipeline failed: Response generation failed: "
                        ++ error_message cause)
         /\ invoke (chatModel (responseGenerator self)) SYSTEM_PROMPT
              (formatAnswerTemplate qtext (buildContext finalResults))
            = Throw cause).
Proof.
  intros Hrun.
  destruct (query_cases env ext self qtext options w)
    as [(e & w0 & Hs & Hq)
       | [(w0 & Hs & Hq)
         | (cands & w0 & fr & rt & s2 & Hs & _ & _ & Hg)]].
  - rewrite Hq in Hrun. injection Hrun as <- <-.
    destruct (search_throws _ _ _ _ _ _ _ Hs) as (cause & -> & evs & Happ & Hincl).
    left. exists cause, evs. split; [reflexivity|]. split; [|exact Hincl].
    unfold appended in *. now rewrite elapse_trace in Happ.
  - rewrite Hq in Hrun. discriminate.
  - destruct Hg as [(g & w3 & _ & Hq) | (e & w3 & Hg & Hq)];
      rewrite Hq in Hrun; [discriminate|].
    injection Hrun as <- <-. right.
    destruct fr as [|s t].
    + unfold generate, bind, emit, Date_now, ret in Hg. cbn in Hg. discriminate.
    + destruct (generate_run ext (responseGenerator self) qtext (s :: t)
                  (elapse 1 s2)) as [(r & w4 & _ & Hgen & _) | (c & w4 & Hi & Hgen)];
        try discriminate; rewrite Hgen in Hg; [discriminate|].
      injection Hg as <- _. exists c, (s :: t). split; [reflexivity|exact Hi].
Qed.

(** X16. The metadata of every answered [query] is consistent with its
    response: [finalCount] is the number of sources; a candidate count of
    zero comes with the fixed no-results answer, no sources and the
    configured model name; and a rerank time is absent exactly when the
    rerank stage did not run, that is when reranking was switched off, the
    reranker has no credential, or nothing was retrieved. *)
Theorem query_metadata_is_consistent env ext self qtext options w resp w' :
  query env ext self qtext options w = (Ok resp, w') ->
  finalCount (qr_metadata resp) = Z.of_nat (List.length (sources resp))
  /\ 0 <= candidateCount (qr_metadata resp)
  /\ (candidateCount (qr_metadata resp) = 0 ->
      answer resp = NO_PAPERS_ANSWER /\ sources resp = []
      /\ modelUsed (qr_metadata resp) = CHAT_MODEL env)
  /\ (rerankTimeMs (qr_metadata resp) = None <->
      rerankRuns self options = false \/ candidateCount (qr_metadata resp) = 0).
Proof.
  intros Hrun.
  destruct (query_cases env ext self qtext options w)
    as [(e & w0 & Hs & Hq)
       | [(w0 & Hs & Hq)
         | (cands & w0 & fr & rt & s2 & Hs & Hne & Hst & Hg)]].
  - rewrite Hq in Hrun. discriminate.
  - rewrite Hq in Hrun. injection Hrun as <- <-. cbn.
    repeat split; auto; lia.
  - destruct Hg as [(g & w3 & Hg & Hq) | (e & w3 & _ & Hq)];
      rewrite Hq in Hrun; [|discriminate].
    injection Hrun as <- <-.
    cbn [sources qr_metadata fullResponse rerankTimeMs finalCount candidateCount
         answer modelUsed].
    assert (Hpos : 0 < Z.of_nat (List.length cands)).
    { destruct cands; [congruence|]. cbn [List.length]. lia. }
    split; [|split; [lia|split; [lia|]]].
    + rewrite (generate_references _ _ _ _ _ _ _ Hg), mapi_length. reflexivity.
    + destruct Hst as [(Hoff & _ & -> & _) | (Hon & w2 & _ & -> & _)].
      * split; auto.
      * split; [discriminate|]. intros [H|H]; [congruence|lia].
Qed.

(** ** The clock along the stages *)

Lemma search_ticks env ext qtext options w r w' :
  search env ext qtext options w = (r, w') -> (ticks w < ticks w')%nat.
Proof.
  intros Hrun. pose proof (search_cases env ext qtext options w) as Hc.
  destruct (vectorStore w) as [store|].
  - destruct (similaritySearchWithScore store qtext _ _);
      rewrite Hc in Hrun; injection Hrun as _ <-; cbn; lia.
  - destruct (getVectorStore ext) as [store|e];
      [destruct (similaritySearchWithScore store qtext _ _)|];
      rewrite Hc in Hrun; injection Hrun as _ <-; cbn; lia.
Qed.

Lemma mapM_state (candidates : list SearchResult)
    (response : list RerankResponseItem) w r w' :
  mapM (mapRerankResult candidates) response w = (r, w') -> w' = w.
Proof.
  revert r. induction response as [|x t IH]; cbn; intros r.
  - unfold ret. intros H. now injection H as _ <-.
  - unfold bind at 1. unfold mapRerankResult at 1.
    destruct (JS.index candidates (index x)); cbn.
    + unfold bind at 1. destruct (mapM _ t w) as [[ys|e] w1] eqn:E; cbn;
        intros H; injection H as _ <-; eapply IH; reflexivity.
    + intros H. now injection H as _ <-.
Qed.

Lemma rerank_ticks env ext self qtext candidates options w r w' :
  rerank env ext self qtext candidates options w = (r, w') ->
  (ticks w <= ticks w')%nat.
Proof.
  unfold rerank, bind, emit, ret, try_catch, Date_now, await.
  cbn [ticks vectorStore trace].
  destruct (enabled self); [destruct (client self) as [cl|]|];
    try (intros H; injection H as _ <-; cbn; lia).
  destruct (List.length candidates =? 0)%nat;
    [intros H; injection H as _ <-; cbn; lia|].
  cbn [ticks vectorStore trace].
  destruct (v2_rerank cl _ _ _ _) as [response|e];
    [|intros H; injection H as _ <-; cbn; lia].
  destruct (mapM (mapRerankResult candidates) response _) as [[mapped|e] w1] eqn:E;
    apply mapM_state in E; subst w1; cbn;
    intros H; injection H as _ <-; cbn; lia.
Qed.

Lemma generate_ticks ext self qtext sources w r w' :
  generate ext self qtext sources w = (r, w') -> (ticks w < ticks w')%nat.
Proof.
  unfold generate, bind, emit, Date_now, try_catch, await, ret, throw.
  cbn [ticks vectorStore trace].
  destruct (List.length sources =? 0)%nat;
    [intros H; injection H as _ <-; cbn; lia|].
  destruct (invoke (chatModel self) SYSTEM_PROMPT _); cbn;
    intros H; injection H as _ <-; cbn; lia.
Qed.

(** X17. With a clock that never runs backwards, every stage time of an
    answered [query] is non-negative and the stage times add up to at
    most the total time. *)
Theorem query_stage_times_fit_in_total env ext self qtext options w resp w' :
  monotone (clock ext) ->
  query env ext self qtext options w = (Ok resp, w') ->
  let m := qr_metadata resp in
  let rerankTime := match rerankTimeMs m with Some t => t | None => 0 end in
  0 <= retrievalTimeMs m
  /\ 0 <= rerankTime
  /\ 0 <= generationTimeMs m
  /\ retrievalTimeMs m + rerankTime + generationTimeMs m <= totalTimeMs m.
Proof.
  intros Hmono Hrun.
  destruct (query_cases env ext self qtext options w)
    as [(e & w0 & Hs & Hq)
       | [(w0 & Hs & Hq)
         | (cands & w0 & fr & rt & s2 & Hs & Hne & Hst & Hg)]].
  - rewrite Hq in Hrun. discriminate.
  - rewrite Hq in Hrun. injection Hrun as <- <-. cbn.
    apply search_ticks in Hs. cbn in Hs.
    pose proof (Hmono (S (ticks w)) (ticks w0) ltac:(lia)).
    pose proof (Hmono (ticks w) (S (ticks w)) ltac:(lia)).
    pose proof (Hmono (ticks w0) (S (ticks w0)) ltac:(lia)).
    lia.
  - destruct Hg as [(g & w3 & Hg & Hq) | (e & w3 & _ & Hq)];
      rewrite Hq in Hrun; [|discriminate].
    injection Hrun as <- <-.
    cbn [qr_metadata fullResponse retrievalTimeMs rerankTimeMs generationTimeMs
         totalTimeMs].
    apply search_ticks in Hs. cbn in Hs.
    apply generate_ticks in Hg. cbn in Hg.
    pose proof (Hmono (S (ticks w)) (ticks w0) ltac:(lia)).
    pose proof (Hmono (ticks w) (S (ticks w)) ltac:(lia)).
    pose proof (Hmono (ticks s2) (ticks w3) ltac:(lia)).
    pose proof (Hmono (ticks w3) (S (ticks w3)) ltac:(lia)).
    destruct Hst as [(_ & _ & -> & ->) | (_ & w2 & Hr & -> & ->)].
    + cbn in *.
      pose proof (Hmono (ticks w0) (S (ticks w0)) ltac:(lia)).
      lia.
    + apply rerank_ticks in Hr. cbn in *.
      pose proof (Hmono (S (ticks w0)) (ticks w2) ltac:(lia)).
      pose proof (Hmono (ticks w0) (S (ticks w0)) ltac:(lia)).
      pose proof (Hmono (ticks w2) (S (ticks w2)) ltac:(lia)).
      lia.
Qed.

(** ** The routes *)

Lemma query_ok_retrieval env ext self qtext options w resp w' :
  query env ext self qtext options w = (Ok resp, w') ->
  exists candidates w1, retrieval env ext qtext options w = (Ok candidates, w1).
Proof.
  intros Hrun.
  destruct (query_cases env ext self qtext options w)
    as [(e & w0 & Hs & Hq)
       | [(w0 & Hs & Hq)
         | (cands & w0 & fr & rt & s2 & Hs & _)]]; eauto.
  rewrite Hq in Hrun. discriminate.
Qed.


Lemma new_pipeline_rerankRuns env ext options :
  withReranking options = Some false \/ isCohereEnabled env = false ->
  rerankRuns (new_RAGPipeline env ext) options = false.
Proof.
  unfold rerankRuns, new_RAGPipeline, new_CohereReranker, isEnabled.
  cbn [reranker]. intros [-> | ->]; [reflexivity|].
  cbn. apply andb_false_r.
Qed.

(** X18. [POST /api/query] rejects a body whose query is empty or has
    more than 500 UTF-16 code units, or whose [k] is not between 1 and 20,
    with the validation error and before anything else happens. Every
    other body is handed to [query] with its [k] and [withReranking]. For
    a body it answers, the query and [k] are within these bounds, and when
    reranking is off (by the request or for want of a credential) the
    response holds at most [k] sources. *)
Theorem post_query_validates_and_bounds_sources env ext body w :
  ((JS.length (qb_query body) < 1)%nat
   \/ (500 < JS.length (qb_query body))%nat
   \/ (exists k, qb_k body = Some k /\ (k <= 0 \/ 20 < k)) ->
   post_query env ext body w = (Throw (APIError 400 "Invalid request body"), w))
  /\ ((1 <= JS.length (qb_query body) <= 500)%nat ->
      (forall k, qb_k body = Some k -> 1 <= k <= 20) ->
      post_query env ext body w
      = query env ext (new_RAGPipeline env ext) (qb_query body)
          {| opt_k := qb_k body; candidatesK := None;
             withReranking := qb_withReranking body; temperature := None |} w)
  /\ (forall resp w',
        post_query env ext body w = (Ok resp, w') ->
        (1 <= JS.length (qb_query body) <= 500)%nat
        /\ forall k,
             qb_k body = Some k ->
             1 <= k <= 20
             /\ (qb_withReranking body = Some false \/ isCohereEnabled env = false ->
                 Z.of_nat (List.length (sources resp)) <= k)).
Proof.
  unfold post_query. split; [|split].
  - intros Hbad.
    assert (Hfail : querySchema_success body = false).
    { unfold querySchema_success.
      destruct Hbad as [Hq | [Hq | (k & Hk & Hr)]].
      - destruct (Nat.leb_spec 1 (JS.length (qb_query body))) as [|_]; [lia|].
        reflexivity.
      - destruct (Nat.leb_spec (JS.length (qb_query body)) 500) as [|_]; [lia|].
        now rewrite andb_false_r.
      - rewrite Hk.
        destruct (Z.ltb_spec 0 k), (Z.leb_spec k 20); try lia;
          cbn; apply andb_false_r. }
    rewrite Hfail. reflexivity.
  - intros [Hlo Hhi] Hk.
    assert (Hok : querySchema_success body = true).
    { unfold querySchema_success.
      apply Nat.leb_le in Hlo, Hhi. rewrite Hlo, Hhi. cbn [andb].
      destruct (qb_k body) as [k|]; [|reflexivity].
      specialize (Hk k eq_refl).
      apply andb_true_intro. split; [apply Z.ltb_lt|apply Z.leb_le]; lia. }
    rewrite Hok. reflexivity.
  - intros resp w'.
    destruct (querySchema_success body) eqn:Hok; cbn [negb]; [|discriminate].
    intros Hrun. unfold querySchema_success in Hok.
    apply andb_prop in Hok. destruct Hok as [Hok Hk].
    apply andb_prop in Hok. destruct Hok as [Hlo Hhi].
    apply Nat.leb_le in Hlo, Hhi. split; [lia|].
    intros k Hsome. rewrite Hsome in Hk.
    apply andb_prop in Hk. destruct Hk as [Hk1 Hk2].
    apply Z.ltb_lt in Hk1. apply Z.leb_le in Hk2. split; [lia|].
    intros Hoff.
    destruct (query_ok_retrieval _ _ _ _ _ _ _ _ Hrun) as (cands & w1 & Hret).
    assert (Hskip : rerankRuns (new_RAGPipeline env ext)
                      {| opt_k := qb_k body; candidatesK := None;
                         withReranking := qb_withReranking body;
                         temperature := None |} = false)
      by (apply new_pipeline_rerankRuns; exact Hoff).
    destruct (query_unreranked _ _ _ _ _ _ _ _ _ _ Hrun Hskip Hret) as (Hsrc & _).
    rewrite Hsrc, mapi_length, length_map.
    unfold finalWidth, JS.or_default. cbn [opt_k]. rewrite Hsome.
    destruct (Z.eqb_spec k 0); [lia|]. apply slice0_length_le. lia.
Qed.

(** X19. The batch route accepts an empty batch and answers it without
    calling the pipeline: no results and a total time of zero. It rejects
    a batch that holds an empty query, and a batch whose [k] is not
    between 1 and 20, with the validation error and the state unchanged. *)
Theorem batch_edge_cases env ext body w :
  (queries body = [] ->
   (forall k, body_k body = Some k -> 1 <= k <= 20) ->
   post_query_batch env ext body w
   = (Ok {| br_queries := 0; br_results := []; br_totalTimeMs := 0 |}, w))
  /\ (In "" (queries body)
      \/ (exists k, body_k body = Some k /\ (k <= 0 \/ 20 < k)) ->
      post_query_batch env ext body w
      = (Throw (APIError 400 "Invalid request body"), w)).
Proof.
  unfold post_query_batch, batchSchema_success. split.
  - intros Hq Hk. rewrite Hq. cbn.
    destruct (body_k body) as [k|]; [|reflexivity].
    specialize (Hk k eq_refl).
    destruct (Z.ltb_spec 0 k), (Z.leb_spec k 20); try lia. reflexivity.
  - intros [Hin | (k & Hk & Hr)].
    + assert (Hf : forallb (fun s => (1 <=? String.length s)%nat) (queries body)
                   = false).
      { destruct (forallb _ (queries body)) eqn:E; [|reflexivity].
        rewrite forallb_forall in E. specialize (E "" Hin). discriminate. }
      rewrite Hf. reflexivity.
    + rewrite Hk.
      assert (Hf : (0 <? k) && (k <=? 20) = false).
      { destruct (Z.ltb_spec 0 k), (Z.leb_spec k 20); try lia; reflexivity. }
      rewrite Hf, andb_false_r. reflexivity.
Qed.





(** ** Health checks *)

(** The vector search check resolves; from a state without a store handle
    it starts by connecting. *)
Lemma vs_healthCheck_run env ext w :
  exists verdict w' evs,
    VectorSearchService_healthCheck env ext w = (Ok verdict, w')
    /\ appended w w' evs
    /\ (vectorStore w = None -> In Net_getVectorStore evs).
Proof.
  unfold VectorSearchService_healthCheck, try_catch, bind, ret, getStore, appended.
  destruct (vectorStore w) as [store|] eqn:Hv.
  - pose proof (search_cases env ext "test" {| vs_k := Some 1; vs_filter := None |} w)
      as Hc. rewrite Hv in Hc.
    destruct (similaritySearchWithScore store "test" _ _); rewrite Hc;
      eexists _, _, _; (split; [reflexivity|]); (split; [reflexivity|]);
      discriminate.
  - destruct (getVectorStore ext) as [store|e].
    + pose proof (search_cases env ext "test" {| vs_k := Some 1; vs_filter := None |}
                    {| ticks := ticks w; vectorStore := Some store;
                       trace := trace w ++ [Net_getVectorStore] |}) as Hc.
      cbn [vectorStore ticks trace] in Hc.
      destruct (similaritySearchWithScore store "test" _ _); rewrite Hc;
        eexists _, _, _; (split; [reflexivity|]);
        (split; [cbn; rewrite <- app_assoc; reflexivity|]);
        intros _; cbn; auto.
    + eexists _, _, _. split; [reflexivity|]. split; [reflexivity|].
      intros _. cbn. auto.
Qed.

Lemma reranker_healthCheck_run (self : CohereReranker) w :
  exists verdict w' evs,
    CohereReranker_healthCheck self w = (Ok verdict, w')
    /\ appended w w' evs
    /\ vectorStore w' = vectorStore w
    /\ (enabled self = false -> verdict = false).
Proof.
  unfold CohereReranker_healthCheck, try_catch, bind, await, ret, appended.
  destruct (enabled self); [destruct (client self) as [cl|]|].
  - destruct (v2_rerank cl _ _ _ _); eexists _, _, _;
      (split; [reflexivity|]); (split; [reflexivity|]);
      (split; [reflexivity|]); discriminate.
  - eexists _, _, []. split; [reflexivity|]. split; [now rewrite app_nil_r|].
    split; [reflexivity|]. discriminate.
  - eexists _, _, []. split; [reflexivity|]. split; [now rewrite app_nil_r|].
    split; [reflexivity|]. reflexivity.
Qed.

(** X21. The health check of the pipeline never rejects. Its two verdicts
    are those of the vector search check and of the reranker check, and
    [overall] is the verdict of the vector search alone: the reranker
    cannot make the pipeline unhealthy. *)
Theorem RAGPipeline_healthCheck_overall env ext self w :
  exists health w1 w',
    RAGPipeline_healthCheck env ext self w = (Ok health, w')
    /\ VectorSearchService_healthCheck env ext w = (Ok (ph_vectorSearch health), w1)
    /\ CohereReranker_healthCheck (reranker self) w1 = (Ok (ph_reranker health), w')
    /\ ph_overall health = ph_vectorSearch health.
Proof.
  destruct (vs_healthCheck_run env ext w) as (v & w1 & evs1 & Hv & _).
  destruct (reranker_healthCheck_run (reranker self) w1) as (r & w2 & evs2 & Hr & _).
  eexists _, w1, w2.
  unfold RAGPipeline_healthCheck, bind, all2, ret. rewrite Hv, Hr.
  cbn [fst snd]. split; [reflexivity|]. cbn [ph_vectorSearch ph_reranker ph_overall].
  repeat split.
Qed.

(** The vector search check from a state without a store handle: it
    connects, and passes exactly when the index is up. *)
Lemma vs_healthCheck_fresh env ext w :
  vectorStore w = None ->
  exists verdict w' evs,
    VectorSearchService_healthCheck env ext w = (Ok verdict, w')
    /\ appended w w' evs
    /\ In Net_getVectorStore evs
    /\ (verdict = true <-> vectorSearchUp ext).
Proof.
  intros Hv.
  unfold VectorSearchService_healthCheck, try_catch, bind, ret, getStore, appended,
    vectorSearchUp.
  rewrite Hv.
  destruct (getVectorStore ext) as [store|e] eqn:Hg.
  - pose proof (search_cases env ext "test" {| vs_k := Some 1; vs_filter := None |}
                  {| ticks := ticks w; vectorStore := Some store;
                     trace := trace w ++ [Net_getVectorStore] |}) as Hc.
    unfold searchK, JS.or_default in Hc.
    cbn [vectorStore ticks trace vs_k vs_filter Z.eqb] in Hc.
    destruct (similaritySearchWithScore store "test" 1 None) as [raw|e] eqn:Hs;
      rewrite Hc; eexists _, _, _; (split; [reflexivity|]);
      (split; [cbn; rewrite <- app_assoc; reflexivity|]);
      (split; [cbn; auto|]).
    + destruct raw as [|d t]; cbn; split.
      * discriminate.
      * intros (s & r & Hs1 & Hr & Hne). injection Hs1 as <-.
        rewrite Hs in Hr. injection Hr as <-. congruence.
      * intros _. exists store, (d :: t). split; [reflexivity|].
        split; [exact Hs|discriminate].
      * reflexivity.
    + split; [discriminate|].
      intros (s & r & Hs1 & Hr & _). injection Hs1 as <-.
      rewrite Hs in Hr. discriminate.
  - eexists _, _, _. split; [reflexivity|]. split; [reflexivity|].
    split; [cbn; auto|]. split; [discriminate|].
    intros (s & r & Hs1 & _). discriminate.
Qed.

(** The reranker check of a new pipeline passes exactly when Cohere is
    up; it leaves the store handle alone. *)
Lemma reranker_healthCheck_fresh env ext w :
  exists verdict w' evs,
    CohereReranker_healthCheck (reranker (new_RAGPipeline env ext)) w
    = (Ok verdict, w')
    /\ appended w w' evs
    /\ ~ In Net_getVectorStore evs
    /\ vectorStore w' = vectorStore w
    /\ (verdict = true <-> cohereUp env ext).
Proof.
  unfold CohereReranker_healthCheck, new_RAGPipeline, new_CohereReranker, cohereUp,
    try_catch, bind, await, ret, appended.
  cbn [reranker].
  destruct (isCohereEnabled env); cbn [enabled client].
  - destruct (v2_rerank (newCohereClient ext) _ _ _ _) as [response|e] eqn:Hcall;
      eexists _, _, [Net_cohere_rerank];
      (split; [reflexivity|]); (split; [reflexivity|]);
      (split; [intros [H|[]]; discriminate H|]); (split; [reflexivity|]).
    + split; [intros _|reflexivity]. split; [reflexivity|]. eauto.
    + split; [discriminate|]. intros (_ & r & Hr). discriminate.
  - eexists _, _, []. split; [reflexivity|]. split; [now rewrite app_nil_r|].
    split; [intros []|]. split; [reflexivity|].
    split; [discriminate|]. intros (H & _). discriminate.
Qed.

(** X22. [GET /api/health] always replies. When the vector index is
    reachable and answers the test query with a document, the status is
    200 with [healthy] and the [chromadb] and [openai] entries read
    [connected]; otherwise it is 503 with [unhealthy] and both read
    [disconnected]. The [cohere] entry reads [connected] when there is a
    credential and the reranker's test call succeeds, and [unavailable]
    otherwise, which does not change the status. Every request calls
    [getVectorStore], and the store handle of the query pipeline is left
    as it was. *)
Theorem get_health_replies env ext toISOString w :
  exists reply w' evs,
    get_health env ext toISOString w = (Ok reply, w')
    /\ vectorStore w' = vectorStore w
    /\ appended w w' evs
    /\ In Net_getVectorStore evs
    /\ (vectorSearchUp ext ->
        http_status reply = 200
        /\ hr_status (http_body reply) = "healthy"
        /\ chromadb (hr_services (http_body reply)) = "connected"
        /\ openai (hr_services (http_body reply)) = "connected")
    /\ (~ vectorSearchUp ext ->
        http_status reply = 503
        /\ hr_status (http_body reply) = "unhealthy"
        /\ chromadb (hr_services (http_body reply)) = "disconnected"
        /\ openai (hr_services (http_body reply)) = "disconnected")
    /\ (cohereUp env ext ->
        cohere (hr_services (http_body reply)) = "connected")
    /\ (~ cohereUp env ext ->
        cohere (hr_services (http_body reply)) = "unavailable")
    /\ hr_version (http_body reply) = "1.0.0".
Proof.
  unfold get_health.
  set (fresh := {| ticks := ticks w; vectorStore := None; trace := trace w |}).
  destruct (vs_healthCheck_fresh env ext fresh eq_refl)
    as (v & w1 & evs1 & Hv & Happ1 & Hconn & Hup).
  destruct (reranker_healthCheck_fresh env ext w1)
    as (r & w2 & evs2 & Hr & Happ2 & _ & _ & Hco).
  unfold bind at 1. unfold RAGPipeline_healthCheck, bind at 1, all2, ret.
  rewrite Hv, Hr. unfold bind, Date_now, ret. cbn [fst snd ph_overall ph_vectorSearch
                                                   ph_reranker].
  eexists _, _, (evs1 ++ evs2)%list. split; [reflexivity|].
  cbn [vectorStore trace ticks http_status http_body hr_status hr_services
       chromadb openai cohere hr_version].
  split; [reflexivity|].
  unfold appended in *. cbn [trace] in Happ1.
  split; [rewrite Happ2, Happ1; now rewrite app_assoc|].
  split; [apply in_or_app; left; exact Hconn|].
  split; [|split; [|split; [|split; [|reflexivity]]]].
  - intros Hyes. apply Hup in Hyes. rewrite Hyes. repeat split.
  - intros Hno. destruct v; [exfalso; apply Hno, Hup; reflexivity|]. repeat split.
  - intros Hyes. apply Hco in Hyes. rewrite Hyes. reflexivity.
  - intros Hno. destruct r; [exfalso; apply Hno, Hco; reflexivity|]. reflexivity.
Qed.

(** ** The comparison *)

Lemma avgScore_nan (srcs : list SourceReference) :
  avgScore srcs = JS.NaN <-> srcs = [].
Proof.
  unfold avgScore, JS.div. destruct srcs as [|s t].
  - cbn. split; reflexivity.
  - destruct (Qeq_bool (inject_Z (Z.of_nat (List.length (s :: t)))) 0) eqn:E.
    + apply Qeq_bool_iff in E. unfold Qeq in E. cbn in E. lia.
    + split; discriminate.
Qed.

Lemma avgScore_num (srcs : list SourceReference) :
  srcs <> [] ->
  avgScore srcs
  = JS.Num (sumRelevance srcs / inject_Z (Z.of_nat (List.length srcs))).
Proof.
  intros Hne. unfold avgScore, JS.div. destruct srcs as [|s t]; [congruence|].
  destruct (Qeq_bool (inject_Z (Z.of_nat (List.length (s :: t)))) 0) eqn:E;
    [|reflexivity].
  apply Qeq_bool_iff in E. unfold Qeq in E. cbn in E. lia.
Qed.

(** X23. In every comparison that is answered, the run without reranking
    reports no rerank time; the score improvement is not a number exactly
    when one of the two runs has no sources; and when both have sources it
    is the difference of the two mean relevance scores. *)
Theorem comparison_improvement_is_mean_difference env ext self qtext w cmp w' :
  queryWithComparison env ext self qtext w = (Ok cmp, w') ->
  let withR := sources (cmp_withReranking cmp) in
  let withoutR := sources (cmp_withoutReranking cmp) in
  rerankTimeMs (qr_metadata (cmp_withoutReranking cmp)) = None
  /\ (avgScoreImprovement (improvement cmp) = JS.NaN <->
      withR = [] \/ withoutR = [])
  /\ (withR <> [] -> withoutR <> [] ->
      avgScoreImprovement (improvement cmp)
      = JS.Num (sumRelevance withR / inject_Z (Z.of_nat (List.length withR))
                - sumRelevance withoutR / inject_Z (Z.of_nat (List.length withoutR)))).
Proof.
  unfold queryWithComparison, bind, all2, ret.
  destruct (query env ext self qtext _ w) as [[r1|e1] w1] eqn:H1.
  - destruct (query env ext self qtext _ w1) as [[r2|e2] w2] eqn:H2;
      [|discriminate].
    intros H. injection H as <- _.
    cbn [cmp_withReranking cmp_withoutReranking improvement avgScoreImprovement
         fst snd].
    split; [|split].
    + destruct (query_ok_retrieval _ _ _ _ _ _ _ _ H2) as (cands & w3 & Hret).
      destruct (query_unreranked _ _ _ _ _ _ _ _ _ _ H2 eq_refl Hret)
        as (_ & Hrt & _). exact Hrt.
    + split.
      * intros Hn.
        destruct (sources r1) as [|a ta] eqn:E1; [auto|].
        destruct (sources r2) as [|b tb] eqn:E2; [auto|].
        rewrite (avgScore_num (a :: ta)), (avgScore_num (b :: tb)) in Hn
          by discriminate.
        discriminate.
      * intros [-> | ->]; cbn; [reflexivity|].
        destruct (avgScore (sources r1)); reflexivity.
    + intros Hw Hwo. rewrite (avgScore_num _ Hw), (avgScore_num _ Hwo). reflexivity.
  - destruct (query env ext self qtext _ w1) as [[r2|e2] w2]; discriminate.
Qed.

(** ** Dataset statistics *)

Lemma minOf_spec (x : Z) (xs : list Z) :
  (forall y, In y (x :: xs) -> minOf x xs <= y) /\ In (minOf x xs) (x :: xs).
Proof.
  unfold minOf. revert x. induction xs as [|a t IH]; intros x; cbn [fold_left].
  - split; [intros y [<-|[]]; lia|left; reflexivity].
  - destruct (IH (Z.min x a)) as [Hle Hin]. split.
    + intros y [<-|[<-|Hy]].
      * specialize (Hle (Z.min x a) (or_introl eq_refl)). lia.
      * specialize (Hle (Z.min x a) (or_introl eq_refl)). lia.
      * apply Hle. right. exact Hy.
    + destruct Hin as [Hin|Hin]; [|right; right; exact Hin].
      rewrite <- Hin. destruct (Z.min_spec x a) as [[_ ->]|[_ ->]]; cbn; auto.
Qed.

Lemma maxOf_spec (x : Z) (xs : list Z) :
  (forall y, In y (x :: xs) -> y <= maxOf x xs) /\ In (maxOf x xs) (x :: xs).
Proof.
  unfold maxOf. revert x. induction xs as [|a t IH]; intros x; cbn [fold_left].
  - split; [intros y [<-|[]]; lia|left; reflexivity].
  - destruct (IH (Z.max x a)) as [Hle Hin]. split.
    + intros y [<-|[<-|Hy]].
      * specialize (Hle (Z.max x a) (or_introl eq_refl)). lia.
      * specialize (Hle (Z.max x a) (or_introl eq_refl)). lia.
      * apply Hle. right. exact Hy.
    + destruct Hin as [Hin|Hin]; [|right; right; exact Hin].
      rewrite <- Hin. destruct (Z.max_spec x a) as [[_ ->]|[_ ->]]; cbn; auto.
Qed.

Lemma Math_round_near (x : Q) :
  (x - (1 # 2) < inject_Z (Math_round x) <= x + (1 # 2))%Q.
Proof.
  unfold Math_round.
  pose proof (Qfloor_le (x + (1 # 2))) as Hle.
  pose proof (Qlt_floor (x + (1 # 2))) as Hlt.
  rewrite inject_Z_plus in Hlt. change (inject_Z 1) with 1%Q in Hlt.
  split; lra.
Qed.

(** X24. [calculateStats] reports the number of papers, splits it into
    papers with and without code, and for an empty list returns zeros
    without dividing. For a non-empty list the year range is attained and
    bounds every paper's year, and [avgPages] is a whole number of tenths
    within one twentieth of the mean page count. *)
Theorem calculateStats_summary (papers : list Paper) :
  let s := calculateStats papers in
  totalPapers s = Z.of_nat (List.length papers)
  /\ withCode s + withoutCode s = totalPapers s
  /\ 0 <= withCode s <= totalPapers s
  /\ (papers = [] ->
      yr_min (yearRange s) = 0 /\ yr_max (yearRange s) = 0 /\ avgPages s = 0%Q)
  /\ (papers <> [] ->
      (forall p, In p papers ->
                 yr_min (yearRange s) <= year p <= yr_max (yearRange s))
      /\ (exists p, In p papers /\ year p = yr_min (yearRange s))
      /\ (exists p, In p papers /\ year p = yr_max (yearRange s))
      /\ (exists tenths, avgPages s = (inject_Z tenths / 10)%Q)
      /\ let mean := (inject_Z (sumZ (map pages papers))
                      / inject_Z (Z.of_nat (List.length papers)))%Q in
         (mean - (1 # 20) < avgPages s <= mean + (1 # 20))%Q).
Proof.
  destruct papers as [|p0 rest]; cbn zeta.
  - cbn. split; [reflexivity|]. split; [reflexivity|]. split; [lia|].
    split; [intros _; repeat split|intros H; contradiction H; reflexivity].
  - unfold calculateStats. cbv zeta.
    cbn [totalPapers withCode withoutCode yearRange yr_min yr_max avgPages].
    set (papers := p0 :: rest).
    assert (Hf : (List.length (List.filter hasCode papers) <= List.length papers)%nat)
      by apply filter_length_le.
    split; [reflexivity|]. split; [lia|]. split; [lia|].
    split; [discriminate|]. intros _.
    destruct (minOf_spec (year p0) (map year rest)) as [Hmin Hmin_in].
    destruct (maxOf_spec (year p0) (map year rest)) as [Hmax Hmax_in].
    change (year p0 :: map year rest) with (map year papers) in *.
    split; [|split; [|split; [|split]]].
    + intros p Hp. split; [apply Hmin|apply Hmax]; apply in_map; exact Hp.
    + apply in_map_iff in Hmin_in. destruct Hmin_in as (p & Hy & Hp). eauto.
    + apply in_map_iff in Hmax_in. destruct Hmax_in as (p & Hy & Hp). eauto.
    + eexists. reflexivity.
    + assert (Hsum : sumPages papers = sumZ (map pages papers)).
      { unfold sumPages. rewrite fold_left_add_shift. lia. }
      rewrite Hsum.
      set (mean := (inject_Z (sumZ (map pages papers))
                    / inject_Z (Z.of_nat (List.length papers)))%Q).
      pose proof (Math_round_near (mean * 10)) as [Hlo Hhi].
      split.
      * apply Qlt_shift_div_l; [reflexivity|]. lra.
      * apply Qle_shift_div_r; [reflexivity|]. lra.
Qed.

(** ** Grouping by year *)

Lemma year_get_set (grouped : YearObject) (k y : Z) (v : list Paper) :
  year_get (year_set grouped k v) y
  = if k =? y then Some v else year_get grouped y.
Proof.
  induction grouped as [|[k' u] t IH]; cbn.
  - reflexivity.
  - destruct (Z.eqb_spec k' k) as [->|Hk]; cbn.
    + destruct (k =? y); reflexivity.
    + destruct (Z.eqb_spec k' y) as [->|Hy].
      * destruct (Z.eqb_spec k y); [congruence|reflexivity].
      * exact IH.
Qed.

(** The papers of a year, in list order; [undefined] when there are none. *)
Lemma groupByYear_from (papers seen : list Paper) (grouped : YearObject) :
  (forall y, year_get grouped y
             = match List.filter (fun p => year p =? y) seen with
               | [] => None
               | l => Some l
               end) ->
  forall y,
    year_get (fold_left groupStep papers grouped) y
    = match List.filter (fun p => year p =? y) (seen ++ papers) with
      | [] => None
      | l => Some l
      end.
Proof.
  revert seen grouped. induction papers as [|p t IH]; intros seen grouped Hinv y.
  - cbn. rewrite app_nil_r. apply Hinv.
  - cbn [fold_left].
    replace (seen ++ p :: t)%list with ((seen ++ [p]) ++ t)%list
      by (rewrite <- app_assoc; reflexivity).
    apply IH. clear y. intros y. unfold groupStep.
    rewrite filter_app. cbn [List.filter].
    pose proof (Hinv (year p)) as Hk. pose proof (Hinv y) as Hy.
    destruct (year_get grouped (year p)) as [l|] eqn:Eg.
    + rewrite Eg, year_get_set.
      destruct (Z.eqb_spec (year p) y) as [<-|Hne].
      * destruct (List.filter _ seen) as [|a l'] eqn:Ef; [discriminate|].
        injection Hk as ->. reflexivity.
      * rewrite app_nil_r. exact Hy.
    + rewrite year_get_set, Z.eqb_refl, year_get_set.
      destruct (Z.eqb_spec (year p) y) as [<-|Hne].
      * destruct (List.filter _ seen) as [|a l'] eqn:Ef; [reflexivity|discriminate].
      * rewrite year_get_set. destruct (Z.eqb_spec (year p) y); [congruence|].
        rewrite app_nil_r. exact Hy.
Qed.

(** X25. Looking a year up in the object [groupByYear] builds gives the
    papers of that year, in the order of the input, and [undefined] when
    no paper has that year: no paper is lost, none is filed under another
    year, and no empty group is left. *)
Theorem groupByYear_lookup (papers : list Paper) (y : Z) :
  year_get (groupByYear papers) y
  = match List.filter (fun p => year p =? y) papers with
    | [] => None
    | l => Some l
    end.
Proof.
  unfold groupByYear. apply (groupByYear_from papers [] []). reflexivity.
Qed.

(** ** Further worked examples *)

Module MoreWitnesses.
Import Examples MoreExamples.

Lemma offline_search_example :
  exists cause,
    Error "Vector search failed: ECONNREFUSED"
    = Error ("Vector search failed: " ++ error_message cause)
    /\ getVectorStore extOffline = Throw cause.
Proof.
  destruct (search_failure_is_wrapped (env true) extOffline "kernels" plain w0
              (Error "Vector search failed: ECONNREFUSED")
              {| ticks := 1; vectorStore := None;
                 trace := [Invoke_search; Net_getVectorStore] |} eq_refl)
    as (cause & Herr & [(_ & Hg & _) | (store & [Hs|[_ Hs]] & _)]).
  - exists cause. split; assumption.
  - discriminate Hs.
  - discriminate Hs.
Defined.

Lemma second_search_example :
  exists store outcome w2,
    search (env true) (ext cohereDown) "void" plain
      (snd (search (env true) (ext cohereDown) "kernels" plain w0))
    = (outcome, w2)
    /\ vectorStore w2 = Some store
    /\ trace w2 = [Invoke_search; Net_getVectorStore; Net_similaritySearch;
                   Invoke_search; Net_similaritySearch].
Proof.
  destruct (search_reuses_the_store (env true) (ext cohereDown) "kernels" plain w0
              candidates (snd (search (env true) (ext cohereDown) "kernels" plain w0))
              eq_refl "void" plain)
    as (st & outcome & w2 & _ & Hrun & Happ & Hv).
  exists st, outcome, w2. split; [exact Hrun|]. split; [exact Hv|exact Happ].
Defined.

Lemma similar_papers_example :
  exists out w',
    findSimilarPapers (env true) (ext cohereDown) JSMore.toLowerCase_ascii
      "KERNELS" (Some 1) w0 = (Ok out, w')
    /\ Forall (fun r => JSMore.toLowerCase_ascii (title (paper r)) <> "kernels") out
    /\ Z.of_nat (List.length out) <= 1.
Proof.
  assert (Hrun : exists out w',
             findSimilarPapers (env true) (ext cohereDown) JSMore.toLowerCase_ascii
               "KERNELS" (Some 1) w0 = (Ok out, w'))
    by (eexists _, _; cbv; reflexivity).
  destruct Hrun as (out & w' & Hrun).
  destruct (proj1 (findSimilarPapers_excludes_the_paper (env true) (ext cohereDown)
                     JSMore.toLowerCase_ascii "KERNELS" (Some 1) w0) out w' Hrun)
    as (results & _ & _ & Hother & Hlen).
  exists out, w'. split; [exact Hrun|]. split; [exact Hother|].
  apply Hlen. lia.
Defined.

Lemma year_range_example :
  exists out w',
    getPapersByYearRange (env true) (ext cohereDown) 2000 2010 (Some 0) w0
    = (Ok out, w')
    /\ out <> []
    /\ (forall r, In r out -> 2000 <= year (paper r) <= 2010)
    /\ exists raw,
         similaritySearchWithScore store "machine learning research" 20 None
         = Ok raw.
Proof.
  assert (Hrun : exists out w',
             getPapersByYearRange (env true) (ext cohereDown) 2000 2010 (Some 0) w0
             = (Ok out, w')
             /\ out <> [])
    by (eexists _, _; split; [cbv; reflexivity|discriminate]).
  destruct Hrun as (out & w' & Hrun & Hne).
  destruct (proj1 (getPapersByYearRange_filters_the_window (env true) (ext cohereDown)
                     2000 2010 (Some 0) w0) out w' Hrun)
    as (st & raw & Hready & Hs & _ & _ & Hin & _).
  exists out, w'. split; [exact Hrun|]. split; [exact Hne|].
  split; [intros r Hr; apply Hin, Hr|].
  exists raw. destruct Hready as [Hv|[_ Hg]]; [discriminate Hv|].
  injection Hg as <-. exact Hs.
Defined.

Lemma idle_rerank_example :
  exists out w',
    rerank (env true) (ext cohereUnsorted)
      (new_CohereReranker (env true) (ext cohereUnsorted)) "kernels" [] noOptions w0
    = (Ok out, w')
    /\ trace w' = [Invoke_rerank]
    /\ out = [].
Proof.
  destruct (rerank_idle_makes_no_call (env true) (ext cohereUnsorted)
              (new_CohereReranker (env true) (ext cohereUnsorted)) "kernels" []
              noOptions w0 (or_intror (or_intror eq_refl)))
    as (out & w' & Hrun & Happ & _ & Hout).
  exists out, w'. split; [exact Hrun|]. split; [exact Happ|]. apply Hout. reflexivity.
Defined.

Lemma provenance_example :
  exists out w',
    rerank (env true) (ext cohereUnsorted)
      (new_CohereReranker (env true) (ext cohereUnsorted))
      "kernels" candidates noOptions w0 = (Ok out, w')
    /\ Forall (fun r => exists c, In c candidates /\ paper (base r) = paper c) out.
Proof.
  assert (Hrun : exists out w',
             rerank (env true) (ext cohereUnsorted)
               (new_CohereReranker (env true) (ext cohereUnsorted))
               "kernels" candidates noOptions w0 = (Ok out, w'))
    by (eexists _, _; cbv; reflexivity).
  destruct Hrun as (out & w' & Hrun).
  exists out, w'. split; [exact Hrun|].
  eapply Forall_impl;
    [|exact (rerank_entries_stem_from_candidates _ _ _ _ _ _ _ _ _ Hrun)].
  intros r ((c & Hin & Hp & _) & _). exists c. split; assumption.
Defined.

Lemma every_item_kept_example :
  exists out w',
    rerank (env true) (ext cohereUnsorted)
      (new_CohereReranker (env true) (ext cohereUnsorted))
      "kernels" candidates {| topK := Some 1; model := None |} w0 = (Ok out, w')
    /\ List.length out = 3%nat.
Proof.
  destruct (rerank_success_keeps_every_scored_item
              (env true) (ext cohereUnsorted)
              (new_CohereReranker (env true) (ext cohereUnsorted)) cohereUnsorted
              "kernels" candidates {| topK := Some 1; model := None |} w0
              [item 2 (3 # 10); item 0 (9 # 10); item 1 (1 # 2)])
    as (out & w' & Hrun & Hlen & _).
  - reflexivity.
  - reflexivity.
  - discriminate.
  - reflexivity.
  - repeat constructor; cbn; lia.
  - exists out, w'. split; [exact Hrun|exact Hlen].
Defined.

Lemma excerpt_example :
  JS.length longText = 300%nat
  /\ JS.length (extractExcerpt longText 200) = 149%nat
  /\ beyondThreshold 90 63 = true
  /\ JS.length (extractExcerpt textOfNinety 90) = 64%nat.
Proof.
  split; [reflexivity|]. split; [|split; [reflexivity|]].
  - destruct (proj1 (proj2 (extractExcerpt_shape longText 200 eq_refl)))
      as (head & rest & Hsplit & Hlen & Hthere & _);
      [apply Nat.ltb_lt; reflexivity|].
    rewrite (ascii_head longText head rest 200 eq_refl Hsplit Hlen) in Hthere.
    destruct (Hthere 148%nat) as (tail & _ & Hexcerpt);
      [apply (lastIndexOf_lastPeriodAt (JS.substring0 200 longText)); cbn; lia
      |reflexivity|exact Hexcerpt].
  - destruct (proj1 (proj2 (extractExcerpt_shape textOfNinety 90 eq_refl)))
      as (head & rest & Hsplit & Hlen & Hthere & _);
      [apply Nat.ltb_lt; reflexivity|].
    rewrite (ascii_head textOfNinety head rest 90 eq_refl Hsplit Hlen) in Hthere.
    destruct (Hthere 63%nat) as (tail & _ & Hexcerpt);
      [apply (lastIndexOf_lastPeriodAt (JS.substring0 90 textOfNinety)); cbn; lia
      |reflexivity|exact Hexcerpt].
Defined.

Lemma chat_failure_example :
  exists cause,
    invoke chatDown SYSTEM_PROMPT
      (formatAnswerTemplate "kernels" (buildContext ranked)) = Throw cause
    /\ Error "Response generation failed: quota exceeded"
       = Error ("Response generation failed: " ++ error_message cause).
Proof.
  destruct (generate_failure_is_wrapped (ext cohereDown) {| chatModel := chatDown |}
              "kernels" ranked w0
              (Error "Response generation failed: quota exceeded")
              {| ticks := 1; vectorStore := None;
                 trace := [Invoke_generate; Net_chat_invoke] |} eq_refl)
    as (_ & cause & Hi & Herr & _).
  exists cause. split; assumption.
Defined.

Lemma unreranked_query_example :
  exists resp w',
    query (env false) (ext cohereDown) pipelineOff "kernels" noRerank w0
    = (Ok resp, w')
    /\ option_map sr_title (nth_error (sources resp) 0) = Some "Kernels"
    /\ rerankTimeMs (qr_metadata resp) = None
    /\ finalCount (qr_metadata resp) = 2
    /\ candidateCount (qr_metadata resp) = 3.
Proof.
  assert (Hrun : exists resp w',
             query (env false) (ext cohereDown) pipelineOff "kernels" noRerank w0
             = (Ok resp, w'))
    by (eexists _, _; cbv; reflexivity).
  destruct Hrun as (resp & w' & Hrun).
  destruct (query_without_reranking_keeps_retrieval_order
              (env false) (ext cohereDown) pipelineOff "kernels" noRerank w0 resp w'
              candidates
              (snd (retrieval (env false) (ext cohereDown) "kernels" noRerank w0))
              Hrun eq_refl ltac:(cbn; lia) eq_refl)
    as (Hsrc & Hrt & Hfc & Hcc & _).
  exists resp, w'. split; [exact Hrun|].
  split; [|split; [exact Hrt|split; [exact Hfc|exact Hcc]]].
  cbn in Hsrc. inversion Hsrc as [|c ref cs refs (_ & Htitle & _) _ Hc Hrefs]; subst.
  cbn. rewrite Htitle. reflexivity.
Defined.


Lemma offline_query_example :
  exists err w',
    query (env true) extOffline (new_RAGPipeline (env true) extOffline)
      "kernels" ragDefaults w0 = (Throw err, w')
    /\ err = Error "RAG pipeline failed: Vector search failed: ECONNREFUSED"
    /\ ~ In Invoke_rerank (trace w') /\ ~ In Invoke_generate (trace w').
Proof.
  assert (Hrun : exists err w',
             query (env true) extOffline (new_RAGPipeline (env true) extOffline)
               "kernels" ragDefaults w0 = (Throw err, w')
             /\ err = Error "RAG pipeline failed: Vector search failed: ECONNREFUSED")
    by (eexists _, _; split; cbv; reflexivity).
  destruct Hrun as (err & w' & Hrun & Herr).
  exists err, w'. split; [exact Hrun|]. split; [exact Herr|].
  destruct (query_failure_is_wrapped _ _ _ _ _ _ _ _ Hrun)
    as [(cause & evs & _ & Happ & Hincl) | (cause & fr & Hgen & _)].
  - unfold appended in Happ. cbn in Happ. rewrite Happ.
    split; intros Hin; apply Hincl in Hin; cbn in Hin; intuition discriminate.
  - exfalso. rewrite Herr in Hgen. discriminate Hgen.
Defined.

Lemma metadata_example :
  exists resp w',
    query (env true) (ext cohereUnsorted)
      (new_RAGPipeline (env true) (ext cohereUnsorted)) "kernels" ragDefaults w0
    = (Ok resp, w')
    /\ finalCount (qr_metadata resp) = Z.of_nat (List.length (sources resp))
    /\ rerankTimeMs (qr_metadata resp) <> None.
Proof.
  assert (Hrun : exists resp w',
             query (env true) (ext cohereUnsorted)
               (new_RAGPipeline (env true) (ext cohereUnsorted)) "kernels"
               ragDefaults w0 = (Ok resp, w')
             /\ candidateCount (qr_metadata resp) = 3)
    by (eexists _, _; split; cbv; reflexivity).
  destruct Hrun as (resp & w' & Hrun & Hcc).
  destruct (query_metadata_is_consistent _ _ _ _ _ _ _ _ Hrun)
    as (Hfc & _ & _ & Hrt).
  exists resp, w'. split; [exact Hrun|]. split; [exact Hfc|].
  intros Hnone. apply Hrt in Hnone. destruct Hnone as [Hoff|Hzero].
  - discriminate Hoff.
  - rewrite Hcc in Hzero. discriminate Hzero.
Defined.

Lemma example_clock_monotone (cohere : CohereClient) : monotone (clock (ext cohere)).
Proof. intros n m Hnm. unfold ext. cbn [clock]. lia. Qed.

Lemma stage_times_example :
  exists resp w',
    query (env true) (ext cohereUnsorted)
      (new_RAGPipeline (env true) (ext cohereUnsorted)) "kernels" ragDefaults w0
    = (Ok resp, w')
    /\ 0 <= retrievalTimeMs (qr_metadata resp)
    /\ retrievalTimeMs (qr_metadata resp) + generationTimeMs (qr_metadata resp)
       <= totalTimeMs (qr_metadata resp).
Proof.
  assert (Hrun : exists resp w',
             query (env true) (ext cohereUnsorted)
               (new_RAGPipeline (env true) (ext cohereUnsorted)) "kernels"
               ragDefaults w0 = (Ok resp, w'))
    by (eexists _, _; cbv; reflexivity).
  destruct Hrun as (resp & w' & Hrun).
  pose proof (query_stage_times_fit_in_total _ _ _ _ _ _ _ _
                (example_clock_monotone cohereUnsorted) Hrun) as Htimes.
  cbv zeta in Htimes. destruct Htimes as (H1 & H2 & H3 & H4).
  exists resp, w'. split; [exact Hrun|]. split; [exact H1|].
  destruct (rerankTimeMs (qr_metadata resp)); lia.
Defined.

Lemma post_query_example :
  post_query (env true) (ext cohereUnsorted) emptyQueryBody w0
  = (Throw (APIError 400 "Invalid request body"), w0)
  /\ String.length (qb_query accentedBody) = 502%nat
  /\ JS.length (qb_query accentedBody) = 251%nat
  /\ exists resp w',
       post_query (env true) (ext cohereUnsorted) accentedBody w0 = (Ok resp, w')
       /\ Z.of_nat (List.length (sources resp)) <= 2.
Proof.
  split; [|split; [reflexivity|split; [reflexivity|]]].
  - apply (proj1 (post_query_validates_and_bounds_sources
                    (env true) (ext cohereUnsorted) emptyQueryBody w0)).
    left. cbn. lia.
  - assert (Hrun : exists resp w',
               post_query (env true) (ext cohereUnsorted) accentedBody w0
               = (Ok resp, w'))
      by (eexists _, _; cbv; reflexivity).
    destruct Hrun as (resp & w' & Hrun).
    exists resp, w'. split; [exact Hrun|].
    destruct (proj2 (proj2 (post_query_validates_and_bounds_sources
                              (env true) (ext cohereUnsorted) accentedBody w0))
                resp w' Hrun)
      as (_ & Hk).
    destruct (Hk 2 eq_refl) as (_ & Hlen). apply Hlen. left. reflexivity.
Defined.

Lemma batch_edges_example :
  post_query_batch (env true) (ext cohereUnsorted) emptyBatch w0
  = (Ok {| br_queries := 0; br_results := []; br_totalTimeMs := 0 |}, w0)
  /\ post_query_batch (env true) (ext cohereUnsorted) blankBatch w0
     = (Throw (APIError 400 "Invalid request body"), w0).
Proof.
  split.
  - apply (proj1 (batch_edge_cases (env true) (ext cohereUnsorted) emptyBatch w0)).
    + reflexivity.
    + intros k Hk. injection Hk as <-. lia.
  - apply (proj2 (batch_edge_cases (env true) (ext cohereUnsorted) blankBatch w0)).
    left. cbn. auto.
Defined.

Lemma comparison_example :
  exists cmp w',
    queryWithComparison (env true) (ext cohereUnsorted)
      (new_RAGPipeline (env true) (ext cohereUnsorted)) "kernels" w0 = (Ok cmp, w')
    /\ rerankTimeMs (qr_metadata (cmp_withoutReranking cmp)) = None
    /\ avgScoreImprovement (improvement cmp) <> JS.NaN.
Proof.
  assert (Hrun : exists cmp w',
             queryWithComparison (env true) (ext cohereUnsorted)
               (new_RAGPipeline (env true) (ext cohereUnsorted)) "kernels" w0
             = (Ok cmp, w')
             /\ List.length (sources (cmp_withReranking cmp)) = 3%nat
             /\ List.length (sources (cmp_withoutReranking cmp)) = 3%nat)
    by (eexists _, _; split; [|split]; cbv; reflexivity).
  destruct Hrun as (cmp & w' & Hrun & H1 & H2).
  pose proof (comparison_improvement_is_mean_difference _ _ _ _ _ _ _ Hrun) as Hc.
  cbv zeta in Hc. destruct Hc as (Hrt & Hnan & _).
  exists cmp, w'. split; [exact Hrun|]. split; [exact Hrt|].
  intros Hn. apply Hnan in Hn. destruct Hn as [Hn|Hn]; rewrite Hn in *; discriminate.
Defined.

Lemma stats_example :
  corpus <> []
  /\ (exists p, In p corpus /\ year p = yr_min (yearRange (calculateStats corpus)))
  /\ (exists tenths, avgPages (calculateStats corpus) = (inject_Z tenths / 10)%Q).
Proof.
  assert (Hne : corpus <> []) by discriminate.
  split; [exact Hne|].
  destruct (calculateStats_summary corpus) as (_ & _ & _ & _ & Hs).
  destruct (Hs Hne) as (_ & Hmin & _ & Htenths & _).
  split; [exact Hmin|exact Htenths].
Defined.


Lemma health_example :
  (exists reply w',
      get_health (env true) (ext cohereDown) JS.string_of_Z w0 = (Ok reply, w')
      /\ http_status reply = 200
      /\ cohere (hr_services (http_body reply)) = "unavailable")
  /\ (exists reply w',
         get_health (env true) extOffline JS.string_of_Z w0 = (Ok reply, w')
         /\ http_status reply = 503).
Proof.
  split.
  - destruct (get_health_replies (env true) (ext cohereDown) JS.string_of_Z w0)
      as (reply & w' & evs & Hrun & _ & _ & _ & Hup & _ & _ & Hnoco & _).
    exists reply, w'. split; [exact Hrun|]. split.
    + apply Hup. eexists _, _. split; [reflexivity|].
      split; [reflexivity|discriminate].
    + apply Hnoco. intros (_ & response & Hcall). discriminate Hcall.
  - destruct (get_health_replies (env true) extOffline JS.string_of_Z w0)
      as (reply & w' & evs & Hrun & _ & _ & _ & _ & Hdown & _).
    exists reply, w'. split; [exact Hrun|].
    apply Hdown. intros (st & raw & Hg & _). discriminate Hg.
Defined.
End MoreWitnesses.
